(** * Type bridge of graphile-build-pg: a shallow embedding

    This development models the parts of [PgTypesPlugin.js] (type resolution
    [enforceGqlTypeByPgType], the value codecs [pg2gql]/[gql2pg] and the fixed
    decoders), the default [enumName] inflector and the node identifier encoder
    of the Node plugin, and proves or refutes the statements of the
    specification about them.

    JavaScript strings are modelled as Rocq byte strings holding their UTF-8
    encoding; every string operation used below (splitting on [","], testing
    and stripping ASCII characters, regular expressions over ASCII characters)
    acts on ASCII characters only, which never occur inside the encoding of a
    non-ASCII character, so it behaves on the encoding as it does on the
    original code units. *)

#[global] Set Warnings "-register-all".
From Stdlib Require Import String Ascii ZArith QArith List Bool.
From stdpp Require Import base gmap strings.
Import ListNotations.

Open Scope string_scope.

(* ------------------------------------------------------------------ *)
(** ** JavaScript values *)

(** JS numbers: finite values are kept as exact rationals (two JS numbers
    obtained by rounding the same rational are the same double), plus the
    infinities and NaN. Signed zero is not distinguished. *)
Inductive num :=
| NFin (q : Q)
| NPosInf
| NNegInf
| NNaN.

Inductive JsVal :=
| JUndef
| JNull
| JBool (b : bool)
| JNum (n : num)
| JStr (s : string)
| JArr (l : list JsVal)
| JObj (fields : list (string * JsVal)).

(** [val == null] *)
Definition js_is_nullish (v : JsVal) : bool :=
  match v with JUndef | JNull => true | _ => false end.

(** Errors thrown: [new Error(message)] (with the [originalError] property
    set by [enforceGqlTypeByPgType]) and the [TypeError] the engine raises when
    reading a property of [undefined] or calling a missing method. *)
Inductive JsError :=
| Error (message : string) (originalError : option JsError)
| TypeError (message : string).

(* ------------------------------------------------------------------ *)
(** ** String helpers (JS [String.prototype] methods) *)

Definition char_at (s : string) (i : nat) : option ascii := String.get i s.

(** [str.split(sep)] for a one-character separator. *)
Fixpoint js_split (sep : ascii) (s : string) : list string :=
  match s with
  | EmptyString => [EmptyString]
  | String c rest =>
      let parts := js_split sep rest in
      if Ascii.eqb c sep then EmptyString :: parts
      else match parts with
           | p :: ps => String c p :: ps
           | [] => [String c EmptyString]
           end
  end.

(** [str.slice(1)] and [str.slice(0, -1)] *)
Definition slice_from_1 (s : string) : string :=
  String.substring 1 (String.length s - 1) s.
Definition slice_drop_last (s : string) : string :=
  String.substring 0 (String.length s - 1) s.

(** [str.substr(start, len)] for in-range non-negative arguments. *)
Definition js_substr (s : string) (start len : nat) : string :=
  String.substring start len s.

Fixpoint str_filter (p : ascii -> bool) (s : string) : string :=
  match s with
  | EmptyString => EmptyString
  | String c rest => if p c then String c (str_filter p rest) else str_filter p rest
  end.

(** [str.replace(c, d)] with a one-character string pattern: first occurrence only. *)
Fixpoint replace_first (c d : ascii) (s : string) : string :=
  match s with
  | EmptyString => EmptyString
  | String x rest => if Ascii.eqb x c then String d rest else String x (replace_first c d rest)
  end.

(** [str.lastIndexOf(c)], [-1] when absent. *)
Fixpoint last_index_of_aux (c : ascii) (s : string) (i : Z) (acc : Z) : Z :=
  match s with
  | EmptyString => acc
  | String x rest => last_index_of_aux c rest (i + 1) (if Ascii.eqb x c then i else acc)
  end.
Definition last_index_of (c : ascii) (s : string) : Z := last_index_of_aux c s 0 (-1).

Definition is_digit (c : ascii) : bool :=
  let n := nat_of_ascii c in (48 <=? n)%nat && (n <=? 57)%nat.

Definition digit_val (c : ascii) : Z := Z.of_nat (nat_of_ascii c) - 48.

(* ------------------------------------------------------------------ *)
(** ** [parseFloat] and [parseInt(_, 10)] *)

Definition is_js_ws (c : ascii) : bool :=
  let n := nat_of_ascii c in
  (n =? 32)%nat || (n =? 9)%nat || (n =? 10)%nat || (n =? 11)%nat
  || (n =? 12)%nat || (n =? 13)%nat.

Fixpoint skip_ws (s : string) : string :=
  match s with
  | String c rest => if is_js_ws c then skip_ws rest else s
  | EmptyString => EmptyString
  end.

(** Longest run of decimal digits: (value, number of digits, rest). *)
Fixpoint read_digits_aux (s : string) (acc : Z) (n : nat) : Z * nat * string :=
  match s with
  | String c rest =>
      if is_digit c then read_digits_aux rest (acc * 10 + digit_val c) (S n)
      else (acc, n, s)
  | EmptyString => (acc, n, EmptyString)
  end.
Definition read_digits (s : string) : Z * nat * string := read_digits_aux s 0 0.

Definition q_of_scaled (m : Z) (e : Z) : Q :=
  if (0 <=? e)%Z then Qred (inject_Z (m * 10 ^ e))
  else Qred (m # Z.to_pos (10 ^ (- e))).

(** Optional exponent part [e[+-]digits]; returns 0 when there is none. *)
Definition read_exponent (s : string) : Z :=
  match s with
  | String c rest =>
      if Ascii.eqb c "e" || Ascii.eqb c "E" then
        let '(neg, r) :=
          match rest with
          | String "-" r => (true, r)
          | String "+" r => (false, r)
          | _ => (false, rest)
          end in
        let '(v, n, _) := read_digits r in
        if (n =? 0)%nat then 0%Z else if neg then (- v)%Z else v
      else 0%Z
  | EmptyString => 0%Z
  end.

Definition parse_unsigned_decimal (s : string) : num :=
  if String.prefix "Infinity" s then NPosInf else
  let '(iv, n_int, r1) := read_digits s in
  let '(fv, n_frac, r2) :=
    match r1 with
    | String "." r => read_digits_aux r iv 0
    | _ => (iv, 0%nat, r1)
    end in
  if ((n_int =? 0)%nat && (n_frac =? 0)%nat) then NNaN
  else NFin (q_of_scaled fv (read_exponent r2 - Z.of_nat n_frac)).

Definition num_neg (n : num) : num :=
  match n with
  | NFin q => NFin (Qred (- q))
  | NPosInf => NNegInf
  | NNegInf => NPosInf
  | NNaN => NNaN
  end.

(** [parseFloat(str)]: longest prefix that is a decimal literal. *)
Definition parseFloat (str : string) : num :=
  match skip_ws str with
  | String "-" r => num_neg (parse_unsigned_decimal r)
  | String "+" r => parse_unsigned_decimal r
  | t => parse_unsigned_decimal t
  end.

(** [parseInt(str, 10)]: [None] is NaN. *)
Definition parseInt10 (str : string) : option Z :=
  let '(neg, r) :=
    match skip_ws str with
    | String "-" r => (true, r)
    | String "+" r => (false, r)
    | t => (false, t)
    end in
  let '(v, n, _) := read_digits r in
  if (n =? 0)%nat then None else Some (if neg then (- v)%Z else v).

(* ------------------------------------------------------------------ *)
(** ** [pgRangeParser.parse] *)

Record RangeBound := mkRangeBound { inclusive : bool; value : string }.

Definition pgRangeParser_parse (str : string)
  : JsError + (option RangeBound * option RangeBound) :=
  match js_split "," str with
  | [p0; p1] =>
      inr ((if (1 <? String.length p0)%nat
            then Some (mkRangeBound (bool_decide (char_at p0 0 = Some "["%char))
                                    (slice_from_1 p0))
            else None),
           (if (1 <? String.length p1)%nat
            then Some (mkRangeBound
                         (bool_decide (char_at p1 (String.length p1 - 1) = Some "]"%char))
                         (slice_drop_last p1))
            else None))
  | _ => inl (Error "Invalid daterange" None)
  end.

(* ------------------------------------------------------------------ *)
(** ** [parseMoney] *)

Definition parseMoney (str : string) : num :=
  let numerical :=
    str_filter (fun c => is_digit c || Ascii.eqb c "." || Ascii.eqb c ",") str in
  let lastCommaIndex := last_index_of "," numerical in
  if (0 <=? lastCommaIndex)%Z && (lastCommaIndex =? Z.of_nat (String.length numerical) - 3)%Z
  then (* Assume string is of the form '123.456,78' *)
    parseFloat (replace_first "," "." (str_filter (fun c => negb (Ascii.eqb c ".")) numerical))
  else (* Assume string is of the form '123,456.78' *)
    parseFloat (str_filter (fun c => negb (Ascii.eqb c ",")) numerical).

(* ------------------------------------------------------------------ *)
(** ** The [point] decoder, [pg2GqlMapper[600].map], on its text input *)

Definition nth_or_undef (l : list JsVal) (i : nat) : JsVal := nth i l JUndef.

Definition point_map (f : string) : JsVal :=
  if bool_decide (char_at f 0 = Some "("%char)
     && bool_decide (char_at f (String.length f - 1) = Some ")"%char)
  then
    let parts := map (fun p => JNum (parseFloat p))
                     (js_split "," (js_substr f 1 (String.length f - 2))) in
    JObj [("x", nth_or_undef parts 0); ("y", nth_or_undef parts 1)]
  else JUndef.

(* ------------------------------------------------------------------ *)
(** ** The default [enumName] inflector *)

(** [.replace(/\*/g, "_ASTERISK_")] *)
Fixpoint replace_asterisks (s : string) : string :=
  match s with
  | EmptyString => EmptyString
  | String c rest =>
      if Ascii.eqb c "*" then "_ASTERISK_" ++ replace_asterisks rest
      else String c (replace_asterisks rest)
  end.

Fixpoint strip_leading_underscores (s : string) : nat * string :=
  match s with
  | String "_" rest => let '(k, r) := strip_leading_underscores rest in (S k, r)
  | _ => (0%nat, s)
  end.

(** [.replace(/^(_?)_+ASTERISK/, "$1ASTERISK")]: [k >= 1] leading underscores
    followed by [ASTERISK]; the group keeps one underscore when [k >= 2]. *)
Definition replace_leading_asterisk (s : string) : string :=
  let '(k, rest) := strip_leading_underscores s in
  if (1 <=? k)%nat && String.prefix "ASTERISK" rest
  then (if (2 <=? k)%nat then "_" else "") ++ rest
  else s.

Fixpoint string_rev (s : string) : string :=
  match s with
  | EmptyString => EmptyString
  | String c rest => string_rev rest ++ String c EmptyString
  end.

Definition ends_with (suffix s : string) : bool :=
  (String.length suffix <=? String.length s)%nat
  && String.eqb (String.substring (String.length s - String.length suffix)
                                  (String.length suffix) s) suffix.

(** [.replace(/ASTERISK_(_?)_*$/, "ASTERISK$1")]: the string ends with
    [ASTERISK] followed by [m >= 1] underscores; the group keeps one
    underscore when [m >= 2]. *)
Definition replace_trailing_asterisk (s : string) : string :=
  let '(m, rrest) := strip_leading_underscores (string_rev s) in
  let q := string_rev rrest in
  if (1 <=? m)%nat && ends_with "ASTERISK" q
  then q ++ (if (2 <=? m)%nat then "_" else "")
  else s.

(** The symbol table of [enumName]. *)
Definition enumNameSymbols : list (string * string) :=
  [(">", "GREATER_THAN"); (">=", "GREATER_THAN_OR_EQUAL"); ("=", "EQUAL");
   ("!=", "NOT_EQUAL"); ("<>", "DIFFERENT"); ("<=", "LESS_THAN_OR_EQUAL");
   ("<", "LESS_THAN");
   ("~~", "LIKE"); ("~~*", "ILIKE"); ("!~~", "NOT_LIKE"); ("!~~*", "NOT_ILIKE");
   ("~", "TILDE"); ("~*", "TILDE_ASTERISK"); ("!~", "NOT_TILDE");
   ("!~*", "NOT_TILDE_ASTERISK");
   ("%", "PERCENT"); ("+", "PLUS"); ("-", "MINUS"); ("/", "SLASH");
   ("\", "BACKSLASH"); ("_", "UNDERSCORE"); ("#", "POUND"); ("£", "STERLING");
   ("$", "DOLLAR"); ("&", "AMPERSAND"); ("@", "AT"); ("'", "APOSTROPHE");
   (String (ascii_of_nat 34) EmptyString, "QUOTE"); ("`", "BACKTICK");
   (":", "COLON"); (";", "SEMICOLON"); ("!", "EXCLAMATION_POINT");
   ("?", "QUESTION_MARK"); (",", "COMMA"); (".", "DOT"); ("^", "CARET");
   ("|", "BAR"); ("[", "OPEN_BRACKET"); ("]", "CLOSE_BRACKET");
   ("(", "OPEN_PARENTHESIS"); (")", "CLOSE_PARENTHESIS"); ("{", "OPEN_BRACE");
   ("}", "CLOSE_BRACE")].

(** The table is a plain object literal, so [{...}[value]] also finds the
    members inherited from [Object.prototype]; these are truthy and are then
    used as property keys, i.e. through [String(...)]. *)
Definition objectPrototypeMemberKey (k : string) : option string :=
  match k with
  | "constructor" => Some "function Object() { [native code] }"
  | "__proto__" => Some "[object Object]"
  | "toString" | "toLocaleString" | "valueOf" | "hasOwnProperty"
  | "isPrototypeOf" | "propertyIsEnumerable" | "__defineGetter__"
  | "__defineSetter__" | "__lookupGetter__" | "__lookupSetter__" =>
      Some ("function " ++ k ++ "() { [native code] }")
  | _ => None
  end.

Fixpoint assoc_lookup (k : string) (l : list (string * string)) : option string :=
  match l with
  | [] => None
  | (k', v) :: rest => if String.eqb k k' then Some v else assoc_lookup k rest
  end.

(** [enumName(inValue)], as the property key it yields. *)
Definition defaultEnumName (inValue : string) : string :=
  if String.eqb inValue "" then "_EMPTY_" else
  let value := replace_trailing_asterisk
                 (replace_leading_asterisk (replace_asterisks inValue)) in
  match assoc_lookup value enumNameSymbols with
  | Some v => v
  | None => match objectPrototypeMemberKey value with
            | Some v => v
            | None => value
            end
  end.

(* ------------------------------------------------------------------ *)
(** ** Type descriptors from introspection *)

(** A [pg_type] row. The introspection results link a descriptor to the
    descriptors its ids name: [rangeSubType] is
    [introspectionResultsByKind.typeById[type.rangeSubTypeId]], [arrayItemType]
    is [pgTypeById[type.arrayItemTypeId]] (and [type.arrayItemType]) and
    [domainBaseType] is [type.domainBaseType]; [None] is [undefined]. *)
Inductive PgType := mkPgType {
  id : string;
  name : string;
  namespaceName : string;
  description : option string;
  type : string;
  category : string;
  enumVariants : option (list string);
  rangeSubTypeId : option string;
  rangeSubType : option PgType;
  domainBaseTypeId : option string;
  domainBaseType : option PgType;
  arrayItemTypeId : option string;
  arrayItemType : option PgType;
  isPgArray : bool
}.

(** Truthiness of an optional id string. *)
Definition truthy_id (o : option string) : bool :=
  match o with Some s => negb (String.eqb s "") | None => false end.

(* ------------------------------------------------------------------ *)
(** ** GraphQL types

    Every [new GraphQL...] and every [Object.create] yields a fresh object;
    each carries the allocation number [loc] it received, so that two values
    of [GqlType] are the same JavaScript object exactly when they are equal.
    The types built once per schema ([GraphQLString], [BigFloat], [Interval],
    ...) are [GBuiltin]s, identified by name. *)
Inductive BuiltinKind := KScalar | KObject | KInputObject.

Inductive GqlType :=
| GBuiltin (bname : string) (bkind : BuiltinKind)
| GEnum (loc : positive) (tname : string) (tdescription : option string)
        (values : gmap string string)
| GObject (loc : positive) (tname : string) (tdescription : option string)
          (fields : list (string * GqlType))
| GInputObject (loc : positive) (tname : string) (tdescription : option string)
               (fields : list (string * GqlType))
| GList (loc : positive) (ofType : GqlType)
| GNonNull (loc : positive) (ofType : GqlType)
(** [Object.assign(Object.create(proto), {name, description})] *)
| GAlias (loc : positive) (proto : GqlType) (tname : string)
         (tdescription : option string).

(** [type.name]; lists and non-null wrappers have none. *)
Definition gql_name (t : GqlType) : option string :=
  match t with
  | GBuiltin n _ => Some n
  | GEnum _ n _ _ | GObject _ n _ _ | GInputObject _ n _ _ | GAlias _ _ n _ => Some n
  | GList _ _ | GNonNull _ _ => None
  end.

(** [String(x)] / template interpolation of a name that may be undefined. *)
Definition name_to_string (o : option string) : string :=
  match o with Some s => s | None => "undefined" end.

(** [isInputType]: an [instanceof] test, which an alias inherits from its
    prototype. *)
Fixpoint isInputType (t : GqlType) : bool :=
  match t with
  | GBuiltin _ k => match k with KObject => false | _ => true end
  | GEnum _ _ _ _ | GInputObject _ _ _ _ => true
  | GObject _ _ _ _ => false
  | GList _ t' | GNonNull _ t' => isInputType t'
  | GAlias _ p _ _ => isInputType p
  end.

Fixpoint is_wrapper (t : GqlType) : bool :=
  match t with
  | GList _ _ | GNonNull _ _ => true
  | GAlias _ p _ _ => is_wrapper p
  | _ => false
  end.

(** [getNamedType]: unwraps lists and non-nulls (an alias of a wrapper is an
    [instanceof] the wrapper and unwraps through its inherited [ofType]). *)
Fixpoint getNamedType (t : GqlType) : GqlType :=
  match t with
  | GList _ t' | GNonNull _ t' => getNamedType t'
  | GAlias _ p _ _ => if is_wrapper p then getNamedType p else t
  | _ => t
  end.

(** JavaScript [===] on type objects. *)
Definition js_same (a b : GqlType) : bool :=
  match a, b with
  | GBuiltin n _, GBuiltin m _ => String.eqb n m
  | GEnum l _ _ _, GEnum l' _ _ _ | GObject l _ _ _, GObject l' _ _ _
  | GInputObject l _ _ _, GInputObject l' _ _ _ | GList l _, GList l' _
  | GNonNull l _, GNonNull l' _ | GAlias l _ _ _, GAlias l' _ _ _ => Pos.eqb l l'
  | _, _ => false
  end.

Definition GraphQLString := GBuiltin "String" KScalar.
Definition GraphQLInt := GBuiltin "Int" KScalar.
Definition GraphQLFloat := GBuiltin "Float" KScalar.
Definition GraphQLBoolean := GBuiltin "Boolean" KScalar.
Definition GQLInterval := GBuiltin "Interval" KObject.
Definition GQLIntervalInput := GBuiltin "IntervalInput" KInputObject.
Definition BigFloat := GBuiltin "BigFloat" KScalar.
Definition BitString := GBuiltin "BitString" KScalar.
Definition SimpleDate := GBuiltin "Date" KScalar.
Definition SimpleDatetime := GBuiltin "Datetime" KScalar.
Definition SimpleTime := GBuiltin "Time" KScalar.
Definition Point := GBuiltin "Point" KObject.
Definition PointInput := GBuiltin "PointInput" KInputObject.
Definition BigInt := GBuiltin "BigInt" KScalar.

(** Plugin options. *)
Record Options := mkOptions { pgExtendedTypes : bool; pgLegacyJsonUuid : bool }.

(** [JSONType] ([GraphQLJSON]/[GraphQLJson] or [SimpleJSON]) and [UUIDType]. *)
Definition JSONType (o : Options) : GqlType :=
  GBuiltin (if pgLegacyJsonUuid o then "Json" else "JSON") KScalar.
Definition UUIDType (o : Options) : GqlType :=
  GBuiltin (if pgLegacyJsonUuid o then "Uuid" else "UUID") KScalar.

Definition oidLookup (o : Options) (oid : string) : option GqlType :=
  match oid with
  | "20" => Some BigInt
  | "21" | "23" => Some GraphQLInt
  | "700" | "701" | "790" => Some GraphQLFloat
  | "1700" => Some BigFloat
  | "1186" => Some GQLInterval
  | "1082" => Some SimpleDate
  | "1114" | "1184" => Some SimpleDatetime
  | "1083" | "1266" => Some SimpleTime
  | "114" | "3802" => Some (JSONType o)
  | "2950" => Some (UUIDType o)
  | "1560" | "1562" => Some BitString
  | "18" | "25" | "1043" => Some GraphQLString
  | "600" => Some Point
  | _ => None
  end.

Definition oidInputLookup (oid : string) : option GqlType :=
  match oid with
  | "1186" => Some GQLIntervalInput
  | "600" => Some PointInput
  | _ => None
  end.

(** The inflector ([build.inflection]); it is a plugin option that users may
    replace, so the theorems take it as a parameter. *)
Record Inflection := mkInflection {
  enumType : PgType -> string;
  enumName : string -> string;
  rangeType : string -> string;
  rangeBoundType : string -> string;
  inputType : string -> string;
  domainType : PgType -> string
}.

(* ------------------------------------------------------------------ *)
(** ** Build state of the plugin and its monad *)

(** The codec entries of [pg2GqlMapper]: the fixed ones and the one
    registered for each range type, whose closure captures [subtype]. *)
Inductive MapperEntry :=
| MJsonStructured  (** [pgExtendedTypes]: [{map: identity, ...}] *)
| MJsonText        (** otherwise: [{map: jsonStringify, ...}] *)
| MInterval
| MMoney
| MPoint
| MRange (subtype : option PgType) (rangeT : PgType).

Inductive Tweak := TweakToJson | TweakToText.

Record State := mkState {
  gqlTypeByTypeId : gmap string GqlType;
  gqlInputTypeByTypeId : gmap string GqlType;
  pg2GqlMapper : gmap string MapperEntry;
  pgTweaksByTypeId : gmap string Tweak;
  depth : Z;
  nextLoc : positive;
  allTypes : gmap string GqlType
}.

Definition set_gqlType (f : gmap string GqlType -> gmap string GqlType) (s : State) : State :=
  mkState (f (gqlTypeByTypeId s)) (gqlInputTypeByTypeId s) (pg2GqlMapper s)
          (pgTweaksByTypeId s) (depth s) (nextLoc s) (allTypes s).
Definition set_gqlInputType (f : gmap string GqlType -> gmap string GqlType) (s : State) : State :=
  mkState (gqlTypeByTypeId s) (f (gqlInputTypeByTypeId s)) (pg2GqlMapper s)
          (pgTweaksByTypeId s) (depth s) (nextLoc s) (allTypes s).
Definition set_mapper (f : gmap string MapperEntry -> gmap string MapperEntry) (s : State) : State :=
  mkState (gqlTypeByTypeId s) (gqlInputTypeByTypeId s) (f (pg2GqlMapper s))
          (pgTweaksByTypeId s) (depth s) (nextLoc s) (allTypes s).
Definition set_tweaks (f : gmap string Tweak -> gmap string Tweak) (s : State) : State :=
  mkState (gqlTypeByTypeId s) (gqlInputTypeByTypeId s) (pg2GqlMapper s)
          (f (pgTweaksByTypeId s)) (depth s) (nextLoc s) (allTypes s).
Definition set_depth (d : Z) (s : State) : State :=
  mkState (gqlTypeByTypeId s) (gqlInputTypeByTypeId s) (pg2GqlMapper s)
          (pgTweaksByTypeId s) d (nextLoc s) (allTypes s).
Definition set_nextLoc (l : positive) (s : State) : State :=
  mkState (gqlTypeByTypeId s) (gqlInputTypeByTypeId s) (pg2GqlMapper s)
          (pgTweaksByTypeId s) (depth s) l (allTypes s).
Definition set_allTypes (f : gmap string GqlType -> gmap string GqlType) (s : State) : State :=
  mkState (gqlTypeByTypeId s) (gqlInputTypeByTypeId s) (pg2GqlMapper s)
          (pgTweaksByTypeId s) (depth s) (nextLoc s) (f (allTypes s)).

(** State and exceptions: a thrown error keeps the mutations made before it,
    as in JavaScript. *)
Definition M (A : Type) : Type := State -> State * (JsError + A).

Definition ret {A} (a : A) : M A := fun s => (s, inr a).
Definition bind {A B} (m : M A) (k : A -> M B) : M B :=
  fun s => match m s with
           | (s', inl e) => (s', inl e)
           | (s', inr a) => k a s'
           end.
Definition throw {A} (e : JsError) : M A := fun s => (s, inl e).
Definition get : M State := fun s => (s, inr s).
Definition modify (f : State -> State) : M unit := fun s => (f s, inr tt).

Notation "'let*' x ':=' m 'in' k" := (bind m (fun x => k))
  (at level 200, x name, m at level 100, k at level 200).

(** A fresh object. *)
Definition alloc : M positive :=
  fun s => (set_nextLoc (Pos.succ (nextLoc s)) s, inr (nextLoc s)).

Definition is_unset (tid : string) : M bool :=
  fun s => (s, inr (bool_decide (gqlTypeByTypeId s !! tid = None))).

(** Modelled from the spec: [build.addType] and [build.getTypeByName] belong
    to graphile-build's schema builder, outside this package; the spec
    describes a single shared schema description that types are added to and
    looked up in by name, which is what these do. *)
Definition addType (t : GqlType) : M unit :=
  modify (set_allTypes (<[name_to_string (gql_name t) := t]>)).
Definition getTypeByName (n : string) : M (option GqlType) :=
  fun s => (s, inr (allTypes s !! n)).

(** The initial build state: the registries copied from
    [build.pgGqlTypeByTypeId] / [build.pgGqlInputTypeByTypeId], the fixed
    codecs and tweaks, the depth counter at 0, and the types added by
    [addType] at the start of the hook on top of those already in the build. *)
Definition rawTypes : list Z := [1186; 1082; 1114; 1184; 1083; 1266]%Z.

Definition initialMapper (o : Options) : gmap string MapperEntry :=
  let json := if pgExtendedTypes o then MJsonStructured else MJsonText in
  <["600" := MPoint]> (<["790" := MMoney]> (<["1186" := MInterval]>
    (<["3802" := json]> (<["114" := json]> ∅)))).

Definition initialTweaks : gmap string Tweak :=
  list_to_map [("1186", TweakToText); ("1082", TweakToJson); ("1114", TweakToJson);
               ("1184", TweakToJson); ("1083", TweakToJson); ("1266", TweakToJson);
               ("20", TweakToText); ("1700", TweakToText)].

Definition initialState (o : Options)
  (pgGqlTypeByTypeId pgGqlInputTypeByTypeId types0 : gmap string GqlType) : State :=
  let added := [GQLInterval; GQLIntervalInput; BigFloat; BitString; JSONType o;
                UUIDType o; SimpleDate; SimpleDatetime; SimpleTime] in
  mkState pgGqlTypeByTypeId pgGqlInputTypeByTypeId (initialMapper o) initialTweaks 0 1
          (fold_left (fun m t => <[name_to_string (gql_name t) := t]> m) added types0).

(* ------------------------------------------------------------------ *)
(** ** [enforceGqlTypeByPgType] / [reallyEnforceGqlTypeByPgType] *)

Definition enumValues (inflection : Inflection) (variants : list string) : gmap string string :=
  fold_left (fun memo value => <[enumName inflection value := value]> memo) variants ∅.

Definition rangeBoundDescription : string :=
  "The value at one end of a range. A range can either include this value, or not.".

(** The [Ranges] branch after the subtype has been resolved. *)
Definition rangeBranch (inflection : Inflection) (ty : PgType) (gqlRangeSubType : GqlType)
  : M unit :=
  let tid := id ty in
  let subName := name_to_string (gql_name gqlRangeSubType) in
  let* Range := getTypeByName (rangeType inflection subName) in
  let* types :=
    match Range with
    | None =>
        let* a := alloc in let* b := alloc in let* c := alloc in
        let RangeBound :=
          GObject c (rangeBoundType inflection subName) (Some rangeBoundDescription)
            [("value", GNonNull a gqlRangeSubType); ("inclusive", GNonNull b GraphQLBoolean)] in
        let* d := alloc in let* e := alloc in let* f := alloc in
        let RangeBoundInput :=
          GInputObject f (inputType inflection (rangeBoundType inflection subName))
            (Some rangeBoundDescription)
            [("value", GNonNull d gqlRangeSubType); ("inclusive", GNonNull e GraphQLBoolean)] in
        let* g := alloc in
        let rangeDescription := "A range of `" ++ subName ++ "`." in
        let Range := GObject g (rangeType inflection subName) (Some rangeDescription)
                       [("start", RangeBound); ("end", RangeBound)] in
        let* h := alloc in
        let RangeInput :=
          GInputObject h (inputType inflection (rangeType inflection subName))
            (Some rangeDescription) [("start", RangeBoundInput); ("end", RangeBoundInput)] in
        let* _ := addType Range in
        let* _ := addType RangeInput in
        ret (Range, Some RangeInput)
    | Some Range =>
        let* RangeInput := getTypeByName (inputType inflection (name_to_string (gql_name Range))) in
        ret (Range, RangeInput)
    end in
  let '(Range, RangeInput) := types in
  modify (fun s =>
    set_mapper (<[tid := MRange (rangeSubType ty) ty]>)
      (set_gqlInputType (fun m => match RangeInput with
                                  | Some ri => <[tid := ri]> m
                                  | None => delete tid m  (* assigned [undefined] *)
                                  end)
         (set_gqlType (<[tid := Range]>) s))).

(** Explicit overrides *)
Definition overridesStep (o : Options) (tid : string) : M unit :=
  let* _ := modify (fun s =>
    match gqlTypeByTypeId s !! tid, oidLookup o tid with
    | None, Some gqlType => set_gqlType (<[tid := gqlType]>) s
    | _, _ => s
    end) in
  modify (fun s =>
    match gqlInputTypeByTypeId s !! tid, oidInputLookup tid with
    | None, Some gqlInputType => set_gqlInputType (<[tid := gqlInputType]>) s
    | _, _ => s
    end).

(** Enums *)
Definition enumStep (inflection : Inflection) (ty : PgType) : M unit :=
  let tid := id ty in
  let* unset := is_unset tid in
  if unset && String.eqb (type ty) "e" then
    match enumVariants ty with
    | None => throw (TypeError "Cannot read property 'reduce' of null")
    | Some variants =>
        let* l := alloc in
        modify (set_gqlType (<[tid := GEnum l (enumType inflection ty) (description ty)
                                              (enumValues inflection variants)]>))
    end
  else ret tt.

(** Ranges *)
Definition rangeStep (inflection : Inflection) (ty : PgType) (enforceRangeSubType : M GqlType)
  : M unit :=
  let* unset := is_unset (id ty) in
  if unset && String.eqb (type ty) "r" then
    let* gqlRangeSubType := enforceRangeSubType in
    (* [if (!gqlRangeSubType)] cannot fire: a resolution returns a type object *)
    rangeBranch inflection ty gqlRangeSubType
  else ret tt.

(** Domains *)
Definition domainStep (inflection : Inflection) (ty : PgType) (enforceDomainBaseType : M GqlType)
  : M unit :=
  let tid := id ty in
  let* unset := is_unset tid in
  if unset && String.eqb (type ty) "d" && truthy_id (domainBaseTypeId ty) then
    let* baseType := enforceDomainBaseType in
    let* s := get in
    let baseInputType :=
      match domainBaseTypeId ty with
      | Some bid => gqlInputTypeByTypeId s !! bid
      | None => None
      end in
    let* l := alloc in
    let alias := GAlias l baseType (domainType inflection ty) (description ty) in
    let* _ := modify (set_gqlType (<[tid := alias]>)) in
    match baseInputType with
    | Some bi =>
        if negb (js_same bi baseType) then
          let* l' := alloc in
          (* [inflection.inputType(gqlTypeByTypeId[type.id])]: the alias
             converts to a string through [toString], i.e. its own [name] *)
          modify (set_gqlInputType (<[tid := GAlias l' bi (inputType inflection
                                               (domainType inflection ty)) (description ty)]>))
        else ret tt
    | None => ret tt
    end
  else ret tt.

(** Fall back to categories *)
Definition categoryStep (ty : PgType) (enforceArrayItemType : M GqlType) : M unit :=
  let tid := id ty in
  let* unset := is_unset tid in
  if unset then
    match category ty with
    | "B" => modify (set_gqlType (<[tid := GraphQLBoolean]>))
    | "N" => modify (fun s => set_gqlType (<[tid := BigFloat]>)
                                (set_tweaks (<[tid := TweakToText]>) s))
    | "A" =>
        let* item := enforceArrayItemType in
        let* l := alloc in
        modify (set_gqlType (<[tid := GList l item]>))
    | _ => ret tt
    end
  else ret tt.

(** Nothing else worked: pass through as string; input types fall back to
    the output type; [addType(getNamedType(...))]; return the entry. *)
Definition finishStep (tid : string) : M GqlType :=
  let* s := get in
  let* gqlType :=
    match gqlTypeByTypeId s !! tid with
    | Some t => ret t
    | None => let* _ := modify (set_gqlType (<[tid := GraphQLString]>)) in ret GraphQLString
    end in
  let* _ := modify (fun s =>
    match gqlInputTypeByTypeId s !! tid with
    | None => if isInputType gqlType then set_gqlInputType (<[tid := gqlType]>) s else s
    | Some _ => s
    end) in
  let* _ := addType (getNamedType gqlType) in
  ret gqlType.

(** The body, given the resolutions of the descriptors it recurses into:
    [enforceGqlTypeByPgType(subtype)], [enforceGqlTypeByPgType(type.domainBaseType)]
    and [enforceGqlTypeByPgType(pgTypeById[type.arrayItemTypeId])]. *)
Definition reallyEnforceGqlTypeByPgType (o : Options) (inflection : Inflection) (ty : PgType)
  (enforceRangeSubType enforceDomainBaseType enforceArrayItemType : M GqlType) : M GqlType :=
  if String.eqb (id ty) "" then
    throw (Error ("Invalid argument to enforceGqlTypeByPgType - expected a full type, received '"
                  ++ "[object Object]" ++ "'") None)
  else
    let* _ := overridesStep o (id ty) in
    let* _ := enumStep inflection ty in
    let* _ := rangeStep inflection ty enforceRangeSubType in
    let* _ := domainStep inflection ty enforceDomainBaseType in
    let* _ := categoryStep ty enforceArrayItemType in
    finishStep (id ty).

Definition depthLimitMessage : string := "Type enforcement went too deep - infinite loop?".

Fixpoint replace_newlines (s : string) : string :=
  match s with
  | EmptyString => EmptyString
  | String c rest =>
      if Ascii.eqb c (ascii_of_nat 10) then String c ("  " ++ replace_newlines rest)
      else String c (replace_newlines rest)
  end.

Definition indent (str : string) : string := "  " ++ replace_newlines str.

Definition error_message (e : JsError) : string :=
  match e with Error m _ => m | TypeError m => m end.

Definition wrapError (ty : PgType) (e : JsError) : JsError :=
  Error ("Error occurred when processing database type '" ++ namespaceName ty ++ "."
         ++ name ty ++ "' (type=" ++ type ty ++ "):" ++ String (ascii_of_nat 10) EmptyString
         ++ indent (error_message e)) (Some e).

(** The wrapper: [depth++], the guard (thrown before the [try], so its
    [finally] does not run), then [try { ... } catch { wrap } finally { depth-- }]. *)
Definition enforceGuarded (ty : PgType) (really : M GqlType) : M GqlType :=
  fun s =>
    let s1 := set_depth (depth s + 1) s in
    if (50 <? depth s1)%Z then (s1, inl (Error depthLimitMessage None))
    else
      let '(s2, r) := really s1 in
      (set_depth (depth s2 - 1) s2,
       match r with inl e => inl (wrapError ty e) | inr t => inr t end).

(** [enforceGqlTypeByPgType(undefined)]: the body fails reading [type.id], and
    the [catch] fails again reading [type.namespaceName]; [finally] runs. *)
Definition enforceUndefined : M GqlType :=
  fun s =>
    let s1 := set_depth (depth s + 1) s in
    if (50 <? depth s1)%Z then (s1, inl (Error depthLimitMessage None))
    else (set_depth (depth s1 - 1) s1,
          inl (TypeError "Cannot read property 'namespaceName' of undefined")).

Fixpoint enforceGqlTypeByPgType (o : Options) (inflection : Inflection) (ty : PgType)
  {struct ty} : M GqlType :=
  match ty with
  | mkPgType _ _ _ _ _ _ _ _ rst _ dbt _ ait _ =>
      enforceGuarded ty
        (reallyEnforceGqlTypeByPgType o inflection ty
           (match rst with Some t => enforceGqlTypeByPgType o inflection t | None => enforceUndefined end)
           (match dbt with Some t => enforceGqlTypeByPgType o inflection t | None => enforceUndefined end)
           (match ait with Some t => enforceGqlTypeByPgType o inflection t | None => enforceUndefined end))
  end.

(** [getGqlTypeByTypeId]: the introspection list, the (truthiness of the)
    input-type generators and the output-type generators are the build's. *)
Section TypeLookup.
Variables (o : Options) (inflection : Inflection).
(** [introspectionResultsByKind.type] *)
Variable introspectionTypes : list PgType.
(** [!!gqlInputTypeByTypeIdGenerator[typeId]] *)
Variable hasInputGenerator : string -> bool.
(** [gqlTypeByTypeIdGenerator]: a generator is called with the [set]
    callback and returns a type or nothing. *)
Variable typeGenerator : string -> option ((GqlType -> M unit) -> M (option GqlType)).

Definition findType (typeId : string) : option PgType :=
  List.find (fun t => String.eqb (id t) typeId) introspectionTypes.

Definition setGqlType (tid : string) (T : GqlType) : M unit :=
  modify (set_gqlType (<[tid := T]>)).

(** The result is [None] for [undefined]. *)
Definition getGqlTypeByTypeId (typeId : string) : M (option GqlType) :=
  if negb (hasInputGenerator typeId) then
    match findType typeId with
    | Some ty => let* r := enforceGqlTypeByPgType o inflection ty in ret (Some r)
    | None => let* r := enforceUndefined in ret (Some r)
    end
  else
    let* s := get in
    let* _ :=
      match gqlTypeByTypeId s !! typeId with
      | Some _ => ret tt
      | None =>
          match findType typeId with
          | None => throw (Error ("Type '" ++ typeId ++ "' not present in introspection results")
                                 None)
          | Some ty =>
              match typeGenerator (id ty) with
              | None => ret tt
              | Some gen =>
                  let* result := gen (setGqlType (id ty)) in
                  match result with
                  | None => ret tt
                  | Some R =>
                      let* s := get in
                      match gqlTypeByTypeId s !! id ty with
                      | Some cur =>
                          if negb (js_same cur R) then
                            throw (Error ("Callback and return types differ when defining type for '"
                                          ++ id ty ++ "'") None)
                          else setGqlType (id ty) R
                      | None => setGqlType (id ty) R
                      end
                  end
              end
          end
      end in
    let* s := get in
    ret (gqlTypeByTypeId s !! typeId).

End TypeLookup.

(* ------------------------------------------------------------------ *)
(** ** SQL fragments (the [pg-sql2] values [gql2pg] builds) *)

Inductive SqlFrag :=
| SqlNull                          (** [sql.null] *)
| SqlValue (v : JsVal)             (** [sql.value(v)], a placeholder *)
| SqlIdentifier (parts : list string)
| SqlLiteral (s : string)
| SqlRaw (text : string)           (** literal text of a template *)
| SqlFragment (parts : list SqlFrag).

(** [sql.join(items, sep)] *)
Fixpoint sql_join_items (items : list SqlFrag) (sep : string) : list SqlFrag :=
  match items with
  | [] => []
  | [x] => [x]
  | x :: rest => x :: SqlRaw sep :: sql_join_items rest sep
  end.
Definition sql_join (items : list SqlFrag) (sep : string) : SqlFrag :=
  SqlFragment (sql_join_items items sep).

(* ------------------------------------------------------------------ *)
(** ** JavaScript conversions used by the codecs *)

Section Codecs.

(** The engine's [Number.prototype.toString] on finite numbers, and the
    external parsers used by the codecs: [postgres-interval] and
    [pg-types]' [getTypeParser(oid)]. *)
Variable numberToString : Q -> string.
Variable rawParseInterval : JsVal -> JsVal.
Variable getTypeParser : string -> string -> JsVal.

Definition js_number_to_string (n : num) : string :=
  match n with
  | NFin q => numberToString q
  | NPosInf => "Infinity"
  | NNegInf => "-Infinity"
  | NNaN => "NaN"
  end.

Definition js_truthy (v : JsVal) : bool :=
  match v with
  | JUndef | JNull => false
  | JBool b => b
  | JNum (NFin q) => negb (Qeq_bool q 0)
  | JNum NNaN => false
  | JNum _ => true
  | JStr s => negb (String.eqb s "")
  | JArr _ | JObj _ => true
  end.

Fixpoint field_lookup (k : string) (fields : list (string * JsVal)) : JsVal :=
  match fields with
  | [] => JUndef
  | (k', v) :: rest => if String.eqb k k' then v else field_lookup k rest
  end.

(** [o[key]] for a non-index key (objects only; strings, numbers and
    booleans have no such data properties). *)
Definition js_get (o : JsVal) (key : string) : JsVal :=
  match o with JObj fields => field_lookup key fields | _ => JUndef end.

Fixpoint join_strings (sep : string) (l : list string) : string :=
  match l with
  | [] => ""
  | [x] => x
  | x :: rest => x ++ sep ++ join_strings sep rest
  end.

(** [String(v)] *)
Fixpoint js_to_string (v : JsVal) : string :=
  match v with
  | JUndef => "undefined"
  | JNull => "null"
  | JBool b => if b then "true" else "false"
  | JNum n => js_number_to_string n
  | JStr s => s
  | JArr l => join_strings "," (map (fun x => match x with
                                              | JUndef | JNull => ""
                                              | _ => js_to_string x
                                              end) l)
  | JObj _ => "[object Object]"
  end.

Definition hex_digit (n : nat) : ascii :=
  if (n <? 10)%nat then ascii_of_nat (48 + n) else ascii_of_nat (87 + n).

(** JSON [QuoteJSONString] *)
Fixpoint json_quote_chars (s : string) : string :=
  match s with
  | EmptyString => EmptyString
  | String c rest =>
      let n := nat_of_ascii c in
      let esc :=
        if (n =? 34)%nat then String "\" (String c EmptyString)
        else if (n =? 92)%nat then String "\" (String "\" EmptyString)
        else if (n =? 8)%nat then "\b"
        else if (n =? 12)%nat then "\f"
        else if (n =? 10)%nat then "\n"
        else if (n =? 13)%nat then "\r"
        else if (n =? 9)%nat then "\t"
        else if (n <? 32)%nat then
          "\u00" ++ String (hex_digit (n / 16)) (String (hex_digit (n mod 16)) EmptyString)
        else String c EmptyString in
      esc ++ json_quote_chars rest
  end.
Definition json_quote (s : string) : string :=
  String (ascii_of_nat 34) (json_quote_chars s ++ String (ascii_of_nat 34) EmptyString).

(** [JSON.stringify(v)]; [None] is [undefined]. *)
Fixpoint json_stringify (v : JsVal) : option string :=
  match v with
  | JUndef => None
  | JNull => Some "null"
  | JBool b => Some (if b then "true" else "false")
  | JNum (NFin q) => Some (numberToString q)
  | JNum _ => Some "null"
  | JStr s => Some (json_quote s)
  | JArr l =>
      Some ("[" ++ join_strings "," (map (fun x => match json_stringify x with
                                                   | Some t => t
                                                   | None => "null"
                                                   end) l) ++ "]")
  | JObj fields =>
      Some ("{" ++ join_strings ","
                     (flat_map (fun '(k, x) => match json_stringify x with
                                               | Some t => [json_quote k ++ ":" ++ t]
                                               | None => []
                                               end) fields) ++ "}")
  end.

Definition num_pred (n : num) : num :=
  match n with NFin q => NFin (Qred (q - 1)) | _ => n end.

(** [ToNumber] of a [length] property; strings and arrays (which a JSON
    object could hold there) are taken as NaN, an approximation. *)
Definition length_to_number (v : JsVal) : num :=
  match v with
  | JNum n => n
  | JNull => NFin 0
  | JBool b => NFin (if b then 1 else 0)
  | _ => NNaN
  end.

Definition is_str (c : string) (v : JsVal) : bool :=
  match v with JStr s => String.eqb s c | _ => false end.

(** [pg2GqlMapper[600].map] on any value: strings as in [point_map]; for an
    array or object [f.substr] is missing once both tests pass. *)
Definition point_map_value (f : JsVal) : JsError + JsVal :=
  match f with
  | JStr s => inr (point_map s)
  | JArr l =>
      let lastItem := match last l with Some x => x | None => JUndef end in
      if is_str "(" (nth 0 l JUndef) && is_str ")" lastItem
      then inl (TypeError "f.substr is not a function") else inr JUndef
  | JObj fields =>
      let lastKey := js_number_to_string (num_pred (length_to_number (field_lookup "length" fields))) in
      if is_str "(" (field_lookup "0" fields) && is_str ")" (field_lookup lastKey fields)
      then inl (TypeError "f.substr is not a function") else inr JUndef
  | _ => inr JUndef
  end.

Fixpoint mapM_res {A B : Type} (f : A -> JsError + B) (l : list A) : JsError + list B :=
  match l with
  | [] => inr []
  | x :: rest =>
      match f x with
      | inl e => inl e
      | inr y => match mapM_res f rest with inl e => inl e | inr ys => inr (y :: ys) end
      end
  end.

Definition stackOverflow : JsError := Error "Maximum call stack size exceeded" None.

Definition readIdError : JsError := TypeError "Cannot read property 'id' of undefined".

Definition pg2gqlArrayError (ty : PgType) : JsError :=
  Error ("Expected array when converting PostgreSQL data into GraphQL; failing type: '"
         ++ namespaceName ty ++ "." ++ name ty ++ "'") None.

(** [pgParse] of the range decoder: identity for the [rawTypes], else the
    [pg-types] parser of the subtype. *)
Definition pgParse (subtypeId : string) (s : string) : JsVal :=
  match parseInt10 subtypeId with
  | Some n => if existsb (Z.eqb n) rawTypes then JStr s else getTypeParser subtypeId s
  | None => getTypeParser subtypeId s
  end.

(** [pg2gql(val, type)] against the codec table [mapper]; [fuel] bounds the
    JavaScript call stack (a range codec recurses into its subtype, which is
    not a part of the descriptor it was called with). *)
Fixpoint pg2gql (mapper : gmap string MapperEntry) (fuel : nat) (val : JsVal) (ty : PgType)
  : JsError + JsVal :=
  if js_is_nullish val then inr val else
  match fuel with
  | O => inl stackOverflow
  | S fuel' =>
      let pg2gql_sub (v : JsVal) (t : option PgType) : JsError + JsVal :=
        match t with
        | Some t => pg2gql mapper fuel' v t
        | None => if js_is_nullish v then inr v else inl readIdError
        end in
      match mapper !! id ty with
      | Some MJsonStructured => inr val
      | Some MJsonText =>
          inr (match json_stringify val with Some s => JStr s | None => JUndef end)
      | Some MInterval => inr (rawParseInterval val)
      | Some MMoney =>
          match val with
          | JStr s => inr (JNum (parseMoney s))
          | _ => inl (TypeError "str.replace is not a function")
          end
      | Some MPoint => point_map_value val
      | Some (MRange subtype _) =>
          match val with
          | JStr pgRange =>
              match pgRangeParser_parse pgRange with
              | inl e => inl e
              | inr (start, end_) =>
                  match subtype with
                  | None => inl readIdError
                  | Some st =>
                      let bound (b : option RangeBound) : JsError + JsVal :=
                        match b with
                        | Some b =>
                            match pg2gql_sub (pgParse (id st) (value b)) subtype with
                            | inl e => inl e
                            | inr v => inr (JObj [("value", v); ("inclusive", JBool (inclusive b))])
                            end
                        | None => inr JNull
                        end in
                      match bound start with
                      | inl e => inl e
                      | inr s => match bound end_ with
                                 | inl e => inl e
                                 | inr e => inr (JObj [("start", s); ("end", e)])
                                 end
                      end
                  end
              end
          | _ => inl (TypeError "str.split is not a function")
          end
      | None =>
          match domainBaseType ty with
          | Some base => pg2gql mapper fuel' val base
          | None =>
              if isPgArray ty then
                match val with
                | JArr l => match mapM_res (fun v => pg2gql_sub v (arrayItemType ty)) l with
                            | inl e => inl e
                            | inr l' => inr (JArr l')
                            end
                | _ => inl (pg2gqlArrayError ty)
                end
              else inr val
          end
      end
  end.

Definition gql2pgArrayError (ty : PgType) : JsError :=
  Error ("Expected array when converting GraphQL data into PostgreSQL data; failing type: '"
         ++ namespaceName ty ++ "." ++ name ty ++ "' (type: object)") None.

Definition intervalKeys : list string :=
  ["seconds"; "minutes"; "hours"; "days"; "months"; "years"].

(** [gql2pg(val, type)] *)
Fixpoint gql2pg (mapper : gmap string MapperEntry) (fuel : nat) (val : JsVal) (ty : PgType)
  : JsError + SqlFrag :=
  if js_is_nullish val then inr SqlNull else
  match fuel with
  | O => inl stackOverflow
  | S fuel' =>
      let gql2pg_sub (v : JsVal) (t : option PgType) : JsError + SqlFrag :=
        match t with
        | Some t => gql2pg mapper fuel' v t
        | None => if js_is_nullish v then inr SqlNull else inl readIdError
        end in
      match mapper !! id ty with
      | Some MJsonStructured =>
          inr (SqlValue (match json_stringify val with Some s => JStr s | None => JUndef end))
      | Some MJsonText => inr (SqlValue val)
      | Some MInterval =>
          let parts := flat_map (fun key => let x := js_get val key in
                                            if js_truthy x then [js_to_string x ++ " " ++ key]
                                            else []) intervalKeys in
          let joined := join_strings " " parts in
          inr (SqlValue (JStr (if String.eqb joined "" then "0 seconds" else joined)))
      | Some MMoney => inr (SqlFragment [SqlRaw "("; SqlValue val; SqlRaw ")::money"])
      | Some MPoint =>
          inr (SqlFragment [SqlRaw "point("; SqlValue (js_get val "x"); SqlRaw ", ";
                            SqlValue (js_get val "y"); SqlRaw ")"])
      | Some (MRange subtype rangeT) =>
          let start := js_get val "start" in
          let end_ := js_get val "end" in
          let bound (b : JsVal) : JsError + SqlFrag :=
            if js_truthy b then gql2pg_sub (js_get b "value") subtype else inr SqlNull in
          match bound start with
          | inl e => inl e
          | inr lower =>
              match bound end_ with
              | inl e => inl e
              | inr upper =>
                  let lowerInclusive :=
                    if js_truthy start && negb (js_truthy (js_get start "inclusive")) then "(" else "[" in
                  let upperInclusive :=
                    if js_truthy end_ && negb (js_truthy (js_get end_ "inclusive")) then ")" else "]" in
                  inr (SqlFragment [SqlIdentifier [namespaceName rangeT; name rangeT]; SqlRaw "(";
                                    lower; SqlRaw ", "; upper; SqlRaw ", ";
                                    SqlLiteral (lowerInclusive ++ upperInclusive); SqlRaw ")"])
              end
          end
      | None =>
          match domainBaseType ty with
          | Some base => gql2pg mapper fuel' val base
          | None =>
              if isPgArray ty then
                match val with
                | JArr l =>
                    match mapM_res (fun v => gql2pg_sub v (arrayItemType ty)) l with
                    | inl e => inl e
                    | inr items =>
                        inr (SqlFragment [SqlRaw "array["; sql_join items ", "; SqlRaw "]::";
                                          SqlIdentifier [namespaceName ty]; SqlRaw ".";
                                          SqlIdentifier [name ty]])
                    end
                | _ => inl (gql2pgArrayError ty)
                end
              else inr (SqlValue val)
          end
      end
  end.

End Codecs.

(* ------------------------------------------------------------------ *)
(** ** Node identifiers (the Node plugin) *)

Definition base64_alphabet : string :=
  "ABCDEFGHIJKLMNOPQRSTUVWXYZabcdefghijklmnopqrstuvwxyz0123456789+/".

Definition b64char (n : nat) : ascii :=
  match String.get n base64_alphabet with Some c => c | None => "="%char end.

(** Base64 of the bytes of a string. *)
Fixpoint base64_bytes (fuel : nat) (s : string) : string :=
  match fuel with
  | O => EmptyString
  | S f =>
      match s with
      | EmptyString => EmptyString
      | String a EmptyString =>
          let x := nat_of_ascii a in
          String (b64char (x / 4)) (String (b64char ((x mod 4) * 16)) "==")
      | String a (String b EmptyString) =>
          let x := nat_of_ascii a in let y := nat_of_ascii b in
          String (b64char (x / 4)) (String (b64char ((x mod 4) * 16 + y / 16))
            (String (b64char ((y mod 16) * 4)) "="))
      | String a (String b (String c rest)) =>
          let x := nat_of_ascii a in let y := nat_of_ascii b in let z := nat_of_ascii c in
          String (b64char (x / 4)) (String (b64char ((x mod 4) * 16 + y / 16))
            (String (b64char ((y mod 16) * 4 + z / 64)) (String (b64char (z mod 64))
              (base64_bytes f rest))))
      end
  end.

(** [const base64 = str => new Buffer(String(str)).toString("base64")]; the
    buffer holds the UTF-8 encoding, which is how strings are represented. *)
Definition base64 (str : string) : string := base64_bytes (String.length str) str.

Definition isObjectPrototypeMember (k : string) : bool :=
  match objectPrototypeMemberKey k with Some _ => true | None => false end.

Record NodeState := mkNodeState {
  nodeAliasByTypeName : gmap string string;
  nodeTypeNameByAlias : gmap string string
}.

(** [setNodeAlias(typeName, alias)]; assigning a string to [__proto__] is
    ignored by the engine. *)
Definition setNodeAlias (ns : NodeState) (typeName alias : string) : NodeState :=
  mkNodeState
    (if String.eqb typeName "__proto__" then nodeAliasByTypeName ns
     else <[typeName := alias]> (nodeAliasByTypeName ns))
    (if String.eqb alias "__proto__" then nodeTypeNameByAlias ns
     else <[alias := typeName]> (nodeTypeNameByAlias ns)).

(** [getNodeAlias(Type)] as the value placed in the identifier array. The
    type object is used as a property key through [toString] and serialised
    through [toJSON], both of which give its name, so it is represented by
    its name. A member inherited from [Object.prototype] is found when no
    alias is set: [__proto__] gives [Object.prototype] (serialised as [{}]),
    the others a function, which [JSON.stringify] writes as [null] inside an
    array, like [undefined]. *)
Definition getNodeAlias (ns : NodeState) (typeName : string) : JsVal :=
  match nodeAliasByTypeName ns !! typeName with
  | Some alias => if String.eqb alias "" then JStr typeName else JStr alias
  | None =>
      if String.eqb typeName "__proto__" then JObj []
      else if isObjectPrototypeMember typeName then JUndef
      else JStr typeName
  end.

(** [getNodeIdForTypeAndIdentifiers(Type, ...identifiers)] *)
Definition getNodeIdForTypeAndIdentifiers (numberToString : Q -> string) (ns : NodeState)
  (typeName : string) (identifiers : list JsVal) : string :=
  base64 (match json_stringify numberToString (JArr (getNodeAlias ns typeName :: identifiers)) with
          | Some s => s
          | None => "undefined"
          end).

(* ------------------------------------------------------------------ *)
(** ** Concrete descriptors and settings used by the witnesses *)

Fixpoint nat_to_string_aux (fuel n : nat) : string :=
  match fuel with
  | O => ""
  | S f => (if (n <? 10)%nat then "" else nat_to_string_aux f (n / 10))
           ++ String (ascii_of_nat (48 + n mod 10)) EmptyString
  end.
Definition nat_to_string (n : nat) : string := nat_to_string_aux (S n) n.

(** [Number.prototype.toString] on integers (enough for the witnesses). *)
Definition intToString (q : Q) : string :=
  let z := Qnum q in
  (if (z <? 0)%Z then "-" else "") ++ nat_to_string (Z.to_nat (Z.abs z)).

(** [pg-types]' parser for [int4] ([parseInt(value, 10)]); other types are
    left as text. *)
Definition int4TypeParser (oid : string) (s : string) : JsVal :=
  if String.eqb oid "23" then
    match parseInt10 s with Some z => JNum (NFin (inject_Z z)) | None => JNum NNaN end
  else JStr s.

Definition int4T : PgType :=
  mkPgType "23" "int4" "pg_catalog" None "b" "N" None None None None None None None false.
Definition intervalT : PgType :=
  mkPgType "1186" "interval" "pg_catalog" None "b" "T" None None None None None None None false.
Definition pointT : PgType :=
  mkPgType "600" "point" "pg_catalog" None "b" "G" None None None None None None None false.
Definition int4ArrT : PgType :=
  mkPgType "1007" "_int4" "pg_catalog" None "b" "A" None None None None None (Some "23")
           (Some int4T) true.
Definition int4rangeT : PgType :=
  mkPgType "3904" "int4range" "pg_catalog" None "r" "R" None (Some "23") (Some int4T)
           None None None None false.
Definition moodT : PgType :=
  mkPgType "90001" "mood" "public" None "e" "E" (Some [">"; "GREATER_THAN"; "ok"])
           None None None None None None false.
Definition myDomainT : PgType :=
  mkPgType "90002" "my_interval" "public" (Some "A domain over interval") "d" "T" None
           None None (Some "1186") (Some intervalT) None None false.

(** [n] nested domains over [int4]: [d<n>] over [d<n-1>] over ... over [int4]. *)
Fixpoint domainChain (n : nat) : PgType :=
  match n with
  | O => int4T
  | S k =>
      let base := domainChain k in
      mkPgType ("d" ++ nat_to_string n) ("dom" ++ nat_to_string n) "public" None "d" "N" None
               None None (Some (id base)) (Some base) None None false
  end.

Definition testInflection : Inflection :=
  mkInflection (fun t => name t) defaultEnumName (fun n => n ++ "Range")
               (fun n => n ++ "RangeBound") (fun n => n ++ "Input") (fun t => name t).

Definition testOptions : Options := mkOptions true false.

Definition startState : State := initialState testOptions ∅ ∅ ∅.

(** The first element of an identifier array, as [getNodeIdForTypeAndIdentifiers]
    would be specified to write it: the alias, or the type's name without one. *)
Definition specNodeId (numberToString : Q -> string) (alias : string)
  (identifiers : list JsVal) : string :=
  base64 (match json_stringify numberToString (JArr (JStr alias :: identifiers)) with
          | Some s => s
          | None => "undefined"
          end).

(** The innermost error of a chain of [originalError]s. *)
Fixpoint rootError (e : JsError) : JsError :=
  match e with
  | Error _ (Some e') => rootError e'
  | _ => e
  end.

(** A computation restores the depth counter whenever it returns normally. *)
Definition DP {A} (m : M A) : Prop :=
  forall s s' a, m s = (s', inr a) -> depth s' = depth s.

(** The ids of a descriptor and of the descriptors it refers to. *)
Fixpoint typeIds (ty : PgType) : list string :=
  match ty with
  | mkPgType tid _ _ _ _ _ _ _ rst _ dbt _ ait _ =>
      tid :: (match rst with Some t => typeIds t | None => [] end) ++
             (match dbt with Some t => typeIds t | None => [] end) ++
             (match ait with Some t => typeIds t | None => [] end)
  end.

(** A computation that returns normally writes the two registries only at
    the ids in [js]. *)
Definition Frame {A} (js : list string) (m : M A) : Prop :=
  forall s s' a, m s = (s', inr a) -> forall j, ~ In j js ->
    gqlTypeByTypeId s' !! j = gqlTypeByTypeId s !! j /\
    gqlInputTypeByTypeId s' !! j = gqlInputTypeByTypeId s !! j.

(* ------------------------------------------------------------------ *)
(** ** [pgRangeParser.serialize] *)

(** [inclusivity[b]]: the object [{true: "[]", false: "()"}] indexed by a
    boolean, i.e. by [String(b)]. *)
Definition inclusivity (b : bool) : string := if b then "[]" else "()".

(** [serialize({start, end})]; [str[0]] and [str[1]] of the two-character
    strings are [substring 0 1] and [substring 1 1]. *)
Definition pgRangeParser_serialize (start end_ : option RangeBound) : string :=
  join_strings ","
    [match start with
     | Some b => String.substring 0 1 (inclusivity (inclusive b)) ++ value b
     | None => "["
     end;
     match end_ with
     | Some b => value b ++ String.substring 1 1 (inclusivity (inclusive b))
     | None => "]"
     end].

(* ------------------------------------------------------------------ *)
(** ** [pgTweakFragmentForType] *)

(** [tweakToText] and [tweakToJson] *)
Definition tweakToText (fragment : SqlFrag) : SqlFrag :=
  SqlFragment [SqlRaw "("; fragment; SqlRaw ")::text"].

Definition applyTweak (t : Tweak) (fragment : SqlFrag) : SqlFrag :=
  match t with
  | TweakToJson => fragment
  | TweakToText => tweakToText fragment
  end.

(** The message is a plain string literal, not a template: the
    [${...}] parts are not interpolated. *)
Definition tweakArrayMessage : string :=
  "Internal graphile-build-pg error: should not attempt to tweak an array, please process array before tweaking (type: `${type.namespaceName}.${type.name}`)".

(** [pgTweakFragmentForType(fragment, type)] against the tweak table
    [pgTweaksByTypeId]; [nodeEnvTest] is [process.env.NODE_ENV === "test"].
    Outside tests the error is only logged ([console.error]), which does not
    change the result. Type ids are oids, so no id is the name of a member
    of [Object.prototype]. *)
Fixpoint pgTweakFragmentForType (tweaks : gmap string Tweak) (nodeEnvTest : bool)
  (fragment : SqlFrag) (ty : PgType) {struct ty} : JsError + SqlFrag :=
  match ty with
  | mkPgType tid _ _ _ _ _ _ _ _ _ dbt _ _ arr =>
      match tweaks !! tid with
      | Some tweaker => inr (applyTweak tweaker fragment)
      | None =>
          match dbt with
          | Some base => pgTweakFragmentForType tweaks nodeEnvTest fragment base
          | None =>
              if arr then
                if nodeEnvTest then inl (Error tweakArrayMessage None) else inr fragment
              else inr fragment
          end
      end
  end.

(* ------------------------------------------------------------------ *)
(** ** [getGqlInputTypeByTypeId], [registerGqlTypeByTypeId],
       [registerGqlInputTypeByTypeId] *)

Section InputTypeLookup.
Variables (o : Options) (inflection : Inflection).
(** [introspectionResultsByKind.type] *)
Variable introspectionTypes : list PgType.
(** [gqlTypeByTypeIdGenerator] and [gqlInputTypeByTypeIdGenerator]; [None]
    is a missing (or falsy) entry. *)
Variable typeGenerator : string -> option ((GqlType -> M unit) -> M (option GqlType)).
Variable inputTypeGenerator : string -> option ((GqlType -> M unit) -> M (option GqlType)).

(** [!!gqlInputTypeByTypeIdGenerator[typeId]] *)
Definition hasInputGen (typeId : string) : bool :=
  match inputTypeGenerator typeId with Some _ => true | None => false end.

Definition setGqlInputType (tid : string) (T : GqlType) : M unit :=
  modify (set_gqlInputType (<[tid := T]>)).

(** The result is [None] for [undefined]. *)
Definition getGqlInputTypeByTypeId (typeId : string) : M (option GqlType) :=
  let* _ :=
    if negb (hasInputGen typeId) then
      match findType introspectionTypes typeId with
      | Some ty => let* _ := enforceGqlTypeByPgType o inflection ty in ret tt
      | None => let* _ := enforceUndefined in ret tt
      end
    else
      let* s := get in
      match gqlInputTypeByTypeId s !! typeId with
      | Some _ => ret tt
      | None =>
          let* _ := getGqlTypeByTypeId o inflection introspectionTypes hasInputGen
                      typeGenerator typeId in
          match findType introspectionTypes typeId with
          | None => throw (Error ("Type '" ++ typeId ++ "' not present in introspection results")
                                 None)
          | Some ty =>
              match inputTypeGenerator (id ty) with
              | None => ret tt
              | Some gen =>
                  let* result := gen (setGqlInputType (id ty)) in
                  match result with
                  | None => ret tt
                  | Some R =>
                      let* s := get in
                      match gqlInputTypeByTypeId s !! id ty with
                      | Some cur =>
                          if negb (js_same cur R) then
                            throw (Error ("Callback and return types differ when defining type for '"
                                          ++ id ty ++ "'") None)
                          else setGqlInputType (id ty) R
                      | None => setGqlInputType (id ty) R
                      end
                  end
              end
          end
      end in
  let* s := get in
  ret (gqlInputTypeByTypeId s !! typeId).

End InputTypeLookup.

Section Registries.
(** The registered values (generators, node fetchers) and their JavaScript
    truthiness. *)
Context {G : Type} (truthy : G -> bool).

(** [registry[key]] is truthy: an own entry that is truthy, or a member
    inherited from [Object.prototype] (all of which are truthy). *)
Definition registered (registry : gmap string G) (key : string) : bool :=
  match registry !! key with
  | Some g => truthy g
  | None => isObjectPrototypeMember key
  end.

(** [registerGqlTypeByTypeId(typeId, gen, yieldToExisting = false)] *)
Definition registerGqlTypeByTypeId (gqlTypeByTypeIdGenerator : gmap string G)
  (typeId : string) (gen : G) (yieldToExisting : bool) : JsError + gmap string G :=
  if registered gqlTypeByTypeIdGenerator typeId then
    if yieldToExisting then inr gqlTypeByTypeIdGenerator
    else inl (Error ("There's already a type generator registered for '" ++ typeId ++ "'") None)
  else inr (<[typeId := gen]> gqlTypeByTypeIdGenerator).

(** [registerGqlInputTypeByTypeId(typeId, gen, yieldToExisting = false)] *)
Definition registerGqlInputTypeByTypeId (gqlInputTypeByTypeIdGenerator : gmap string G)
  (typeId : string) (gen : G) (yieldToExisting : bool) : JsError + gmap string G :=
  if registered gqlInputTypeByTypeIdGenerator typeId then
    if yieldToExisting then inr gqlInputTypeByTypeIdGenerator
    else inl (Error ("There's already an input type generator registered for '" ++ typeId ++ "'")
                    None)
  else inr (<[typeId := gen]> gqlInputTypeByTypeIdGenerator).

(** [addNodeFetcherForTypeName(typeName, fetcher)] *)
Definition addNodeFetcherForTypeName (nodeFetcherByTypeName : gmap string G)
  (typeName : string) (fetcher : G) : JsError + gmap string G :=
  if registered nodeFetcherByTypeName typeName then
    inl (Error "There's already a fetcher for this type" None)
  else if negb (truthy fetcher) then inl (Error "No fetcher specified" None)
  else inr (<[typeName := fetcher]> nodeFetcherByTypeName).

End Registries.

(* ------------------------------------------------------------------ *)
(** ** [getNodeType] *)

(** [nodeTypeNameByAlias[alias] || alias], as the property key
    [getTypeByName] receives: an own entry unless it is the empty string,
    else an inherited member of [Object.prototype] (through [String(...)]),
    else the alias itself. *)
Definition getNodeTypeKey (ns : NodeState) (alias : string) : string :=
  match nodeTypeNameByAlias ns !! alias with
  | Some typeName => if String.eqb typeName "" then alias else typeName
  | None => match objectPrototypeMemberKey alias with Some k => k | None => alias end
  end.

(** [getNodeType(alias)] *)
Definition getNodeType (ns : NodeState) (alias : string) : M (option GqlType) :=
  getTypeByName (getNodeTypeKey ns alias).

(* ------------------------------------------------------------------ *)
(** ** Descriptors the codecs pass through *)

(** A descriptor with no codec entry that is a chain of domains ending in a
    type that is neither a domain nor an array, none of which has a codec. *)
Fixpoint plainDomainChain (mapper : gmap string MapperEntry) (ty : PgType) : bool :=
  match ty with
  | mkPgType tid _ _ _ _ _ _ _ _ _ dbt _ _ arr =>
      match mapper !! tid with
      | Some _ => false
      | None => match dbt with Some base => plainDomainChain mapper base | None => negb arr end
      end
  end.

(** The number of [domainBaseType] links below a descriptor. *)
Fixpoint domainDepth (ty : PgType) : nat :=
  match ty with
  | mkPgType _ _ _ _ _ _ _ _ _ _ dbt _ _ _ =>
      match dbt with Some base => S (domainDepth base) | None => O end
  end.

(** [oid], a numeric ([N]) type with no fixed GraphQL type. *)
Definition oidT : PgType :=
  mkPgType "26" "oid" "pg_catalog" None "b" "N" None None None None None None None false.

(** An array type whose item type is missing from the introspection results. *)
Definition orphanArrT : PgType :=
  mkPgType "90003" "_orphan" "public" None "b" "A" None None None None None (Some "90004")
           None true.

(* ================================================================== *)
(** * Theorems *)

(** ** C9: null values bypass every codec *)

(** C9: for every descriptor and every codec table, decoding [null] or
    [undefined] returns the value unchanged and encoding it yields
    [sql.null], whatever the registered codecs and parsers are. *)
Theorem codecs_skip_nullish :
  forall (numberToString : Q -> string) (rawParseInterval : JsVal -> JsVal)
         (getTypeParser : string -> string -> JsVal)
         (mapper : gmap string MapperEntry) (fuel : nat) (ty : PgType),
    pg2gql numberToString rawParseInterval getTypeParser mapper fuel JNull ty = inr JNull /\
    pg2gql numberToString rawParseInterval getTypeParser mapper fuel JUndef ty = inr JUndef /\
    gql2pg numberToString mapper fuel JNull ty = inr SqlNull /\
    gql2pg numberToString mapper fuel JUndef ty = inr SqlNull.
Proof. intros; destruct fuel; repeat split. Qed.

(** ** C10: the point decoder *)

(** C10: with the point codec registered for a descriptor, decoding a text
    that does not both start with "(" and end with ")" gives [undefined]
    without an error, and a parenthesised text is split on "," between the
    parentheses and gives [{x, y}] from [parseFloat] of the first two parts. *)
Theorem point_decode_requires_parentheses :
  forall (numberToString : Q -> string) (rawParseInterval : JsVal -> JsVal)
         (getTypeParser : string -> string -> JsVal)
         (mapper : gmap string MapperEntry) (fuel : nat) (ty : PgType),
    mapper !! id ty = Some MPoint ->
    forall f : string,
      (char_at f 0 <> Some "("%char \/ char_at f (String.length f - 1) <> Some ")"%char ->
       pg2gql numberToString rawParseInterval getTypeParser mapper (S fuel) (JStr f) ty
       = inr JUndef) /\
      (char_at f 0 = Some "("%char -> char_at f (String.length f - 1) = Some ")"%char ->
       let parts := map (fun p => JNum (parseFloat p))
                        (js_split "," (js_substr f 1 (String.length f - 2))) in
       pg2gql numberToString rawParseInterval getTypeParser mapper (S fuel) (JStr f) ty
       = inr (JObj [("x", nth 0 parts JUndef); ("y", nth 1 parts JUndef)])).
Proof.
  intros numberToString rawParseInterval getTypeParser mapper fuel ty Hm f.
  simpl. rewrite Hm. simpl. unfold point_map. split.
  - intros [H | H].
    + rewrite (bool_decide_eq_false_2 _ H). reflexivity.
    + rewrite (bool_decide_eq_false_2 _ H), andb_false_r. reflexivity.
  - intros H0 H1. rewrite (bool_decide_eq_true_2 _ H0), (bool_decide_eq_true_2 _ H1).
    reflexivity.
Qed.

(** ** C5: the money decoder *)

(** C5: both grouping styles of the same amount decode to the number written
    [123456.78], which is [parseFloat("123456.78")]. *)
Theorem money_decode_both_groupings :
  parseMoney "123,456.78" = parseFloat "123456.78" /\
  parseMoney "123.456,78" = parseFloat "123456.78" /\
  parseFloat "123456.78" = NFin (Qred (12345678 # 100)).
Proof. vm_compute. repeat split. Qed.

(** ** C4: decoding a range literal *)

(** C4: the range literal is split on "," into two parts; a part longer than
    one character gives a bound whose inclusivity comes from its bracket and
    whose text is the rest, a shorter part gives no bound. Against a range
    whose subtype is [int4] (decoded by [pg-types] with [parseInt(_, 10)]),
    "[-10,52)" decodes to [{start: {value: -10, inclusive: true},
    end: {value: 52, inclusive: false}}]. *)
Theorem range_decode_int4 :
  forall (numberToString : Q -> string) (rawParseInterval : JsVal -> JsVal)
         (getTypeParser : string -> string -> JsVal)
         (mapper : gmap string MapperEntry) (fuel : nat) (rangeT subtype rangeT' : PgType),
    (forall s, getTypeParser "23" s =
               match parseInt10 s with Some z => JNum (NFin (inject_Z z)) | None => JNum NNaN end) ->
    mapper !! id rangeT = Some (MRange (Some subtype) rangeT') ->
    id subtype = "23" -> mapper !! "23" = None ->
    domainBaseType subtype = None -> isPgArray subtype = false ->
    (forall str p0 p1, js_split "," str = [p0; p1] ->
       pgRangeParser_parse str =
       inr ((if (1 <? String.length p0)%nat
             then Some (mkRangeBound (bool_decide (char_at p0 0 = Some "["%char)) (slice_from_1 p0))
             else None),
            (if (1 <? String.length p1)%nat
             then Some (mkRangeBound (bool_decide (char_at p1 (String.length p1 - 1) = Some "]"%char))
                                     (slice_drop_last p1))
             else None))) /\
    pg2gql numberToString rawParseInterval getTypeParser mapper (S (S fuel)) (JStr "[-10,52)") rangeT
    = inr (JObj [("start", JObj [("value", JNum (NFin (-10))); ("inclusive", JBool true)]);
                 ("end", JObj [("value", JNum (NFin 52)); ("inclusive", JBool false)])]).
Proof.
  intros numberToString rawParseInterval getTypeParser mapper fuel rangeT subtype rangeT'
         Hparse Hm Hid Hsm Hdom Harr.
  split.
  - intros str p0 p1 Hsplit. unfold pgRangeParser_parse. rewrite Hsplit. reflexivity.
  - simpl. rewrite Hm. simpl. rewrite Hid. unfold pgParse. simpl. rewrite !Hparse. simpl.
    rewrite Hsm, Hdom, Harr. reflexivity.
Qed.

(** ** C6: decoding against an array descriptor *)

Lemma str_app_assoc (a b c : string) : (a ++ b) ++ c = a ++ (b ++ c).
Proof. induction a as [|ch a IH]; [reflexivity | exact (f_equal (String ch) IH)]. Qed.

(** C6: for an array descriptor (no codec entry for its id, not a domain),
    decoding a value that is neither nullish nor an array fails with the
    error naming the array type as [namespace.name]; decoding an array maps
    the item type's decoder over every element. *)
Theorem array_decode_requires_sequence :
  forall (numberToString : Q -> string) (rawParseInterval : JsVal -> JsVal)
         (getTypeParser : string -> string -> JsVal)
         (mapper : gmap string MapperEntry) (fuel : nat) (ty : PgType),
    isPgArray ty = true -> mapper !! id ty = None -> domainBaseType ty = None ->
    (forall val, js_is_nullish val = false -> (forall l, val <> JArr l) ->
       pg2gql numberToString rawParseInterval getTypeParser mapper (S fuel) val ty
       = inl (pg2gqlArrayError ty) /\
       exists pre post, error_message (pg2gqlArrayError ty)
                        = pre ++ (namespaceName ty ++ "." ++ name ty) ++ post) /\
    (forall item l, arrayItemType ty = Some item ->
       pg2gql numberToString rawParseInterval getTypeParser mapper (S fuel) (JArr l) ty
       = match mapM_res (fun v => pg2gql numberToString rawParseInterval getTypeParser
                                         mapper fuel v item) l with
         | inl e => inl e
         | inr l' => inr (JArr l')
         end).
Proof.
  intros numberToString rawParseInterval getTypeParser mapper fuel ty Harr Hm Hdom. split.
  - intros val Hn Hnot. split.
    + cbn [pg2gql]. rewrite Hn, Hm, Hdom, Harr.
      destruct val; try reflexivity; try discriminate Hn. exfalso. exact (Hnot l eq_refl).
    + exists "Expected array when converting PostgreSQL data into GraphQL; failing type: '", "'".
      unfold pg2gqlArrayError, error_message. rewrite !str_app_assoc. reflexivity.
  - intros item l Hitem. cbn [pg2gql js_is_nullish]. rewrite Hm, Hdom, Harr, Hitem.
    reflexivity.
Qed.

(** Witness of C10: the [point] codec of the initial mapper, on ["(1,3)"]
    and on ["1,3"]. *)
Lemma point_decode_requires_parentheses_witness :
  initialMapper testOptions !! id pointT = Some MPoint /\
  pg2gql intToString (fun v => v) int4TypeParser (initialMapper testOptions) 1
         (JStr "1,3") pointT = inr JUndef /\
  pg2gql intToString (fun v => v) int4TypeParser (initialMapper testOptions) 1
         (JStr "(1,3)") pointT
  = inr (JObj [("x", JNum (parseFloat "1")); ("y", JNum (parseFloat "3"))]).
Proof.
  assert (Hm : initialMapper testOptions !! id pointT = Some MPoint) by reflexivity.
  split; [exact Hm | split].
  - destruct (point_decode_requires_parentheses intToString (fun v => v) int4TypeParser
                (initialMapper testOptions) 0 pointT Hm "1,3") as [Hnot _].
    apply Hnot. left. vm_compute. discriminate.
  - destruct (point_decode_requires_parentheses intToString (fun v => v) int4TypeParser
                (initialMapper testOptions) 0 pointT Hm "(1,3)") as [_ Hpar].
    specialize (Hpar ltac:(reflexivity) ltac:(reflexivity)). cbv zeta in Hpar.
    rewrite Hpar. vm_compute. reflexivity.
Defined.

(** Witness of C4: the [int4range] descriptor over [int4] with the [pg-types]
    parser for [int4]. *)
Lemma range_decode_int4_witness :
  pg2gql intToString (fun v => v) int4TypeParser
         (<["3904" := MRange (Some int4T) int4rangeT]> ∅) 2 (JStr "[-10,52)") int4rangeT
  = inr (JObj [("start", JObj [("value", JNum (NFin (-10))); ("inclusive", JBool true)]);
               ("end", JObj [("value", JNum (NFin 52)); ("inclusive", JBool false)])]).
Proof.
  exact (proj2 (range_decode_int4 intToString (fun v => v) int4TypeParser
                  (<["3904" := MRange (Some int4T) int4rangeT]> ∅) 0 int4rangeT int4T int4rangeT
                  (fun s => eq_refl) eq_refl eq_refl eq_refl eq_refl eq_refl)).
Defined.

(** Witness of C6: the [_int4] descriptor, decoding a number and an array. *)
Lemma array_decode_requires_sequence_witness :
  pg2gql intToString (fun v => v) int4TypeParser ∅ 2 (JNum (NFin 1)) int4ArrT
  = inl (pg2gqlArrayError int4ArrT) /\
  pg2gql intToString (fun v => v) int4TypeParser ∅ 2 (JArr [JStr "7"; JNull]) int4ArrT
  = inr (JArr [JStr "7"; JNull]).
Proof.
  destruct (array_decode_requires_sequence intToString (fun v => v) int4TypeParser ∅ 1
              int4ArrT eq_refl (lookup_empty _) eq_refl) as [H1 H2].
  split.
  - refine (proj1 (H1 (JNum (NFin 1)) eq_refl _)). intros l Hl. discriminate Hl.
  - rewrite (H2 int4T [JStr "7"; JNull] eq_refl). vm_compute. reflexivity.
Defined.

(** ** C1: the depth guard *)

(** C1: from a fresh build state (counter 0), resolving a chain of 49 nested
    domains over [int4] succeeds and leaves the counter at 0; chains of 50 and
    51 nested domains fail with an error whose root is the depth-limit error,
    but they leave the counter at 1, not 0: the guard's [throw] comes after
    [depth++] and before the [try], so its [finally { depth-- }] never runs. *)
Theorem depth_guard_chain_bounds :
  (exists t s', enforceGqlTypeByPgType testOptions testInflection (domainChain 49) startState
                = (s', inr t) /\ depth s' = 0%Z) /\
  (exists e s', enforceGqlTypeByPgType testOptions testInflection (domainChain 50) startState
                = (s', inl e) /\ rootError e = Error depthLimitMessage None /\ depth s' = 1%Z) /\
  (exists e s', enforceGqlTypeByPgType testOptions testInflection (domainChain 51) startState
                = (s', inl e) /\ rootError e = Error depthLimitMessage None /\ depth s' = 1%Z).
Proof.
  split; [|split].
  - assert (H : match enforceGqlTypeByPgType testOptions testInflection (domainChain 49) startState with
                 | (s', inr _) => depth s' = 0%Z
                 | _ => False
                 end) by (vm_compute; reflexivity).
    destruct (enforceGqlTypeByPgType testOptions testInflection (domainChain 49) startState) as [s' [e | t]]; [contradiction |].
    exists t, s'. split; [reflexivity | exact H].
  - assert (H : match enforceGqlTypeByPgType testOptions testInflection (domainChain 50) startState with
                 | (s', inl e) => rootError e = Error depthLimitMessage None /\ depth s' = 1%Z
                 | _ => False
                 end) by (vm_compute; split; reflexivity).
    destruct (enforceGqlTypeByPgType testOptions testInflection (domainChain 50) startState) as [s' [e | t]]; [| contradiction].
    exists e, s'. split; [reflexivity | exact H].
  - assert (H : match enforceGqlTypeByPgType testOptions testInflection (domainChain 51) startState with
                 | (s', inl e) => rootError e = Error depthLimitMessage None /\ depth s' = 1%Z
                 | _ => False
                 end) by (vm_compute; split; reflexivity).
    destruct (enforceGqlTypeByPgType testOptions testInflection (domainChain 51) startState) as [s' [e | t]]; [| contradiction].
    exists e, s'. split; [reflexivity | exact H].
Qed.

(** ** Reasoning about the state monad *)

Lemma bind_inr {A B} (m : M A) (k : A -> M B) s s' b :
  bind m k s = (s', inr b) -> exists s1 a, m s = (s1, inr a) /\ k a s1 = (s', inr b).
Proof. unfold bind. destruct (m s) as [s1 [e | a]]; [discriminate | eauto]. Qed.

Lemma DP_bind {A B} (m : M A) (k : A -> M B) : DP m -> (forall a, DP (k a)) -> DP (bind m k).
Proof.
  intros Hm Hk s s' b H. apply bind_inr in H as (s1 & a & H1 & H2).
  rewrite (Hk a _ _ _ H2). exact (Hm _ _ _ H1).
Qed.

Lemma DP_ret {A} (a : A) : DP (ret a).
Proof. intros s s' b H. injection H as <- _. reflexivity. Qed.

Lemma DP_throw {A} e : DP (A := A) (throw e).
Proof. intros s s' b H. discriminate H. Qed.

Lemma DP_get : DP get.
Proof. intros s s' b H. injection H as <- _. reflexivity. Qed.

Lemma DP_modify f : (forall s, depth (f s) = depth s) -> DP (modify f).
Proof. intros Hf s s' b H. injection H as <- _. apply Hf. Qed.

Lemma DP_alloc : DP alloc.
Proof. intros s s' b H. injection H as <- _. reflexivity. Qed.

Lemma DP_is_unset tid : DP (is_unset tid).
Proof. intros s s' b H. injection H as <- _. reflexivity. Qed.

Lemma DP_getTypeByName n : DP (getTypeByName n).
Proof. intros s s' b H. injection H as <- _. reflexivity. Qed.

Ltac dp_solve :=
  repeat match goal with
  | |- DP (bind _ _) => apply DP_bind; [ | intro ]
  | |- DP (ret _) => apply DP_ret
  | |- DP (throw _) => apply DP_throw
  | |- DP get => apply DP_get
  | |- DP alloc => apply DP_alloc
  | |- DP (is_unset _) => apply DP_is_unset
  | |- DP (getTypeByName _) => apply DP_getTypeByName
  | |- DP (modify _) => apply DP_modify; intro; repeat case_match; reflexivity
  | |- DP (addType _) => apply DP_modify; intro; reflexivity
  | |- DP (if ?b then _ else _) => destruct b
  | |- DP (match ?x with _ => _ end) => destruct x
  end.

Lemma DP_really o inflection ty r1 r2 r3 :
  DP r1 -> DP r2 -> DP r3 -> DP (reallyEnforceGqlTypeByPgType o inflection ty r1 r2 r3).
Proof.
  intros H1 H2 H3. unfold reallyEnforceGqlTypeByPgType, overridesStep, enumStep, rangeStep,
    rangeBranch, domainStep, categoryStep, finishStep.
  dp_solve; assumption.
Qed.

Lemma DP_undefined : DP enforceUndefined.
Proof.
  intros s s' b H. unfold enforceUndefined in H. cbn [depth set_depth] in H.
  destruct (50 <? depth s + 1)%Z; discriminate H.
Qed.

Lemma DP_enforce o inflection : forall ty, DP (enforceGqlTypeByPgType o inflection ty).
Proof.
  fix IH 1. intros [tid tname tns tdesc ttype tcat tvars rid rst did dbt aid ait arr].
  cbn [enforceGqlTypeByPgType]. intros s s' b H. unfold enforceGuarded in H.
  cbn [depth set_depth] in H.
  destruct (50 <? depth s + 1)%Z eqn:Hg; [discriminate H |].
  destruct (reallyEnforceGqlTypeByPgType _ _ _ _ _ _ _) as [s2 [e | t]] eqn:Hr;
    [discriminate H |].
  injection H as <- _. cbn [depth set_depth].
  assert (Hd : depth s2 = depth (set_depth (depth s + 1) s)).
  { eapply DP_really; [| | | exact Hr].
    - destruct rst as [t' |]; [apply IH | apply DP_undefined].
    - destruct dbt as [t' |]; [apply IH | apply DP_undefined].
    - destruct ait as [t' |]; [apply IH | apply DP_undefined]. }
  rewrite Hd. cbn. lia.
Qed.

Lemma finish_inr tid s s' r :
  finishStep tid s = (s', inr r) -> gqlTypeByTypeId s' !! tid = Some r.
Proof.
  unfold finishStep, bind, get, ret, modify, addType. cbn.
  destruct (gqlTypeByTypeId s !! tid) as [t |] eqn:E; cbn.
  - intros H. injection H as <- <-. cbn. repeat case_match; cbn; exact E.
  - intros H. injection H as <- <-. cbn. repeat case_match; cbn; apply lookup_insert_eq.
Qed.

Lemma enforce_success o inflection ty s s' r :
  enforceGqlTypeByPgType o inflection ty s = (s', inr r) ->
  depth s' = depth s /\ gqlTypeByTypeId s' !! id ty = Some r /\ id ty <> "" /\
  (depth s + 1 <= 50)%Z.
Proof.
  intros H. split; [exact (DP_enforce o inflection ty s s' r H) |].
  destruct ty as [tid tname tns tdesc ttype tcat tvars rid rst did dbt aid ait arr].
  cbn [enforceGqlTypeByPgType] in H. unfold enforceGuarded in H. cbn [depth set_depth] in H.
  destruct (50 <? depth s + 1)%Z eqn:Hg; [discriminate H |].
  destruct (reallyEnforceGqlTypeByPgType _ _ _ _ _ _ _) as [s2 [e | t]] eqn:Hr;
    [discriminate H |].
  injection H as <- <-. unfold reallyEnforceGqlTypeByPgType in Hr. cbn [id] in *.
  destruct (String.eqb tid "") eqn:Hid; [discriminate Hr |].
  do 5 (apply bind_inr in Hr as (? & [] & _ & Hr)).
  apply finish_inr in Hr. cbn. repeat split.
  - exact Hr.
  - intros ->. discriminate Hid.
  - apply Z.ltb_ge in Hg. lia.
Qed.

Lemma bind_run {A B} (m : M A) (k : A -> M B) s s1 a :
  m s = (s1, inr a) -> bind m k s = k a s1.
Proof. intros H. unfold bind. rewrite H. reflexivity. Qed.

Section Cached.
Variables (o : Options) (inflection : Inflection) (ty : PgType) (s : State) (t : GqlType).
Hypothesis Hset : gqlTypeByTypeId s !! id ty = Some t.

Lemma is_unset_cached : is_unset (id ty) s = (s, inr false).
Proof. unfold is_unset. rewrite Hset. reflexivity. Qed.

Lemma overrides_cached :
  exists s1, overridesStep o (id ty) s = (s1, inr tt) /\
             gqlTypeByTypeId s1 = gqlTypeByTypeId s /\ depth s1 = depth s.
Proof.
  unfold overridesStep, bind, modify. rewrite Hset.
  eexists. split; [reflexivity |]. cbn. case_match; [split; reflexivity |].
  case_match; split; reflexivity.
Qed.

Lemma enum_cached r1 r2 r3 s1 :
  gqlTypeByTypeId s1 = gqlTypeByTypeId s ->
  enumStep inflection ty s1 = (s1, inr tt) /\
  rangeStep inflection ty r1 s1 = (s1, inr tt) /\
  domainStep inflection ty r2 s1 = (s1, inr tt) /\
  categoryStep ty r3 s1 = (s1, inr tt).
Proof.
  intros E.
  assert (Hu : is_unset (id ty) s1 = (s1, inr false)).
  { unfold is_unset. rewrite E, Hset. reflexivity. }
  unfold enumStep, rangeStep, domainStep, categoryStep.
  rewrite !(bind_run _ _ _ _ _ Hu). repeat split.
Qed.

Lemma finish_cached s1 :
  gqlTypeByTypeId s1 = gqlTypeByTypeId s ->
  exists s2, finishStep (id ty) s1 = (s2, inr t) /\
             gqlTypeByTypeId s2 = gqlTypeByTypeId s /\ depth s2 = depth s1.
Proof.
  intros E. unfold finishStep, bind, get, ret, modify, addType. rewrite E, Hset. cbn.
  eexists. split; [reflexivity |]. cbn.
  destruct (gqlInputTypeByTypeId s1 !! id ty); [| destruct (isInputType t)]; cbn; auto.
Qed.

End Cached.

Lemma enforce_cached o inflection ty s t :
  gqlTypeByTypeId s !! id ty = Some t -> id ty <> "" -> (depth s + 1 <= 50)%Z ->
  exists s', enforceGqlTypeByPgType o inflection ty s = (s', inr t) /\
             gqlTypeByTypeId s' = gqlTypeByTypeId s /\ depth s' = depth s.
Proof.
  intros Hset Hid Hd.
  set (s0 := set_depth (depth s + 1) s).
  assert (Hset0 : gqlTypeByTypeId s0 !! id ty = Some t) by exact Hset.
  assert (Hreally : forall r1 r2 r3, exists s2,
    reallyEnforceGqlTypeByPgType o inflection ty r1 r2 r3 s0 = (s2, inr t) /\
    gqlTypeByTypeId s2 = gqlTypeByTypeId s /\ depth s2 = (depth s + 1)%Z).
  { intros r1 r2 r3. unfold reallyEnforceGqlTypeByPgType.
    destruct (String.eqb (id ty) "") eqn:E; [apply String.eqb_eq in E; contradiction |].
    destruct (overrides_cached o ty s0 t Hset0) as (s1 & H1 & E1 & D1).
    destruct (enum_cached inflection ty s0 t Hset0 r1 r2 r3 s1 E1) as (He & Hr & Hdm & Hc).
    destruct (finish_cached ty s0 t Hset0 s1 E1) as (s2 & Hf & E2 & D2).
    rewrite (bind_run _ _ _ _ _ H1), (bind_run _ _ _ _ _ He), (bind_run _ _ _ _ _ Hr),
      (bind_run _ _ _ _ _ Hdm), (bind_run _ _ _ _ _ Hc).
    exists s2. split; [exact Hf |]. split; [exact E2 |]. rewrite D2, D1. reflexivity. }
  destruct ty as [tid tname tns tdesc ttype tcat tvars rid rst did dbt aid ait arr].
  cbn [enforceGqlTypeByPgType]. unfold enforceGuarded. fold s0.
  replace (50 <? depth s0)%Z with false by (symmetry; apply Z.ltb_ge; cbn; lia).
  edestruct Hreally as (s2 & Hr & E2 & D2). rewrite Hr.
  eexists. split; [reflexivity |]. cbn. split; [exact E2 | lia].
Qed.

Lemma undefined_never_returns s s' (a : GqlType) : enforceUndefined s <> (s', inr a).
Proof.
  unfold enforceUndefined. cbn [depth set_depth].
  destruct (50 <? depth s + 1)%Z; discriminate.
Qed.

(** ** C3: resolution is idempotent *)

(** C3: once a descriptor has been resolved to a type object [r], resolving
    it again returns the same object [r] (the same allocation, so [===]
    holds) and leaves the registry of output types exactly as it was, so the
    entry stored for the id is not overwritten; the same holds for
    [getGqlTypeByTypeId], whichever of its two paths it takes. *)
Theorem resolve_twice_same_object :
  (forall o inflection ty s s1 r,
     enforceGqlTypeByPgType o inflection ty s = (s1, inr r) ->
     gqlTypeByTypeId s1 !! id ty = Some r /\
     exists s2, enforceGqlTypeByPgType o inflection ty s1 = (s2, inr r) /\
                gqlTypeByTypeId s2 = gqlTypeByTypeId s1) /\
  (forall o inflection types hasInputGenerator typeGenerator typeId s s1 r,
     getGqlTypeByTypeId o inflection types hasInputGenerator typeGenerator typeId s
       = (s1, inr (Some r)) ->
     exists s2, getGqlTypeByTypeId o inflection types hasInputGenerator typeGenerator typeId s1
                  = (s2, inr (Some r)) /\
                gqlTypeByTypeId s2 = gqlTypeByTypeId s1).
Proof.
  assert (Henf : forall o inflection ty s s1 r,
     enforceGqlTypeByPgType o inflection ty s = (s1, inr r) ->
     gqlTypeByTypeId s1 !! id ty = Some r /\
     exists s2, enforceGqlTypeByPgType o inflection ty s1 = (s2, inr r) /\
                gqlTypeByTypeId s2 = gqlTypeByTypeId s1).
  { intros o inflection ty s s1 r H.
    destruct (enforce_success o inflection ty s s1 r H) as (Hd & Hset & Hid & Hlim).
    split; [exact Hset |].
    destruct (enforce_cached o inflection ty s1 r Hset Hid) as (s2 & H2 & E2 & _);
      [rewrite Hd; exact Hlim |].
    exists s2. split; assumption. }
  split; [exact Henf |].
  intros o inflection types hig gen typeId s s1 r H.
  unfold getGqlTypeByTypeId in *.
  destruct (negb (hig typeId)).
  - destruct (findType types typeId) as [ty |].
    + apply bind_inr in H as (s' & r' & H1 & H2). injection H2 as <- <-.
      destruct (Henf _ _ _ _ _ _ H1) as (_ & s2 & H3 & E3).
      exists s2. rewrite (bind_run _ _ _ _ _ H3). split; [reflexivity | exact E3].
    + apply bind_inr in H as (s' & r' & H1 & _). exfalso. exact (undefined_never_returns _ _ _ H1).
  - apply bind_inr in H as (s' & s'' & H1 & H). injection H1 as <- <-.
    apply bind_inr in H as (s3 & [] & _ & H).
    apply bind_inr in H as (s4 & s5 & H1 & H). injection H1 as <- <-.
    injection H as <- Hr.
    exists s3. unfold bind, get, ret. rewrite Hr. cbn. rewrite Hr. split; reflexivity.
Qed.

(** Witness of C3: an enum descriptor from a fresh build state, through
    [enforceGqlTypeByPgType] and through [getGqlTypeByTypeId]. *)
Lemma resolve_twice_same_object_witness :
  (exists s1 r, enforceGqlTypeByPgType testOptions testInflection moodT startState = (s1, inr r) /\
     gqlTypeByTypeId s1 !! id moodT = Some r /\
     exists s2, enforceGqlTypeByPgType testOptions testInflection moodT s1 = (s2, inr r) /\
                gqlTypeByTypeId s2 = gqlTypeByTypeId s1) /\
  (exists s1 r, getGqlTypeByTypeId testOptions testInflection [moodT] (fun _ => false)
                  (fun _ => None) "90001" startState = (s1, inr (Some r)) /\
     exists s2, getGqlTypeByTypeId testOptions testInflection [moodT] (fun _ => false)
                  (fun _ => None) "90001" s1 = (s2, inr (Some r)) /\
                gqlTypeByTypeId s2 = gqlTypeByTypeId s1).
Proof.
  split.
  - destruct (enforceGqlTypeByPgType testOptions testInflection moodT startState)
      as [s1 [e | r]] eqn:E; [vm_compute in E; discriminate E |].
    exists s1, r. split; [reflexivity |].
    exact (proj1 resolve_twice_same_object _ _ _ _ _ _ E).
  - destruct (getGqlTypeByTypeId testOptions testInflection [moodT] (fun _ => false)
                (fun _ => None) "90001" startState) as [s1 [e | [r |]]] eqn:E;
      [vm_compute in E; discriminate E | | vm_compute in E; discriminate E].
    exists s1, r. split; [reflexivity |].
    exact (proj2 resolve_twice_same_object _ _ _ _ _ _ _ _ _ E).
Defined.

(** ** C2: enum variants whose names collide *)

Lemma overrides_unset o tid s :
  gqlTypeByTypeId s !! tid = None -> oidLookup o tid = None ->
  exists s1, overridesStep o tid s = (s1, inr tt) /\
             gqlTypeByTypeId s1 = gqlTypeByTypeId s /\ depth s1 = depth s.
Proof.
  intros Hs Ho. unfold overridesStep, bind, modify. rewrite Hs, Ho.
  eexists. split; [reflexivity |]. cbn. case_match; [split; reflexivity |].
  case_match; split; reflexivity.
Qed.

Lemma enumValues_lookup inflection vs n :
  enumValues inflection vs !! n = last (List.filter (fun v => String.eqb (enumName inflection v) n) vs).
Proof.
  unfold enumValues. induction vs as [| v vs IH] using rev_ind; [reflexivity |].
  rewrite fold_left_app, List.filter_app. cbn [fold_left List.filter].
  destruct (String.eqb (enumName inflection v) n) eqn:E.
  - apply String.eqb_eq in E. subst n. rewrite lookup_insert_eq, last_snoc. reflexivity.
  - apply String.eqb_neq in E. rewrite lookup_insert_ne by exact E.
    rewrite app_nil_r. exact IH.
Qed.

(** C2 (counterexample): the variants [">"] and ["GREATER_THAN"] both get
    the member name [GREATER_THAN]; resolving the enum does not fail, and
    its values hold two members for the three variants. *)
Lemma enum_collision_counterexample :
  enumName testInflection ">" = "GREATER_THAN" /\
  enumName testInflection "GREATER_THAN" = "GREATER_THAN" /\
  exists s1 l, enforceGqlTypeByPgType testOptions testInflection moodT startState
    = (s1, inr (GEnum l "mood" None
                  (<["ok" := "ok"]> (<["GREATER_THAN" := "GREATER_THAN"]> ∅)))).
Proof.
  split; [reflexivity | split; [reflexivity |]].
  destruct (enforceGqlTypeByPgType testOptions testInflection moodT startState)
    as [s1 r] eqn:E.
  pose proof E as E'. vm_compute in E'. injection E' as _ <-.
  exists s1, 1%positive. reflexivity.
Qed.

(** C2 (amended): the values of an enum map each member name to the LAST
    variant that derives it, so variants with the same derived name are
    merged silently; and resolving an enum descriptor not yet in the
    registry succeeds with exactly these values, without any error. *)
Theorem enum_collisions_merge_last_wins :
  (forall inflection vs n,
     enumValues inflection vs !! n
     = last (List.filter (fun v => String.eqb (enumName inflection v) n) vs)) /\
  (forall o inflection ty s vs,
     id ty <> "" -> type ty = "e" -> enumVariants ty = Some vs ->
     gqlTypeByTypeId s !! id ty = None -> oidLookup o (id ty) = None ->
     (depth s + 1 <= 50)%Z ->
     exists s' l, enforceGqlTypeByPgType o inflection ty s
                  = (s', inr (GEnum l (enumType inflection ty) (description ty)
                                    (enumValues inflection vs)))).
Proof.
  split; [exact enumValues_lookup |].
  intros o inflection ty s vs Hid Hty Hvs Hs Ho Hd.
  set (s0 := set_depth (depth s + 1) s).
  assert (Hs0 : gqlTypeByTypeId s0 !! id ty = None) by exact Hs.
  destruct (overrides_unset o (id ty) s0 Hs0 Ho) as (s1 & H1 & E1 & D1).
  set (T := GEnum (nextLoc s1) (enumType inflection ty) (description ty)
                  (enumValues inflection vs)).
  set (s2 := set_gqlType (<[id ty := T]>) (set_nextLoc (Pos.succ (nextLoc s1)) s1)).
  assert (He : enumStep inflection ty s1 = (s2, inr tt)).
  { unfold enumStep, bind, is_unset, alloc, modify. rewrite E1, Hs0, Hty, Hvs. reflexivity. }
  assert (Hset : gqlTypeByTypeId s2 !! id ty = Some T) by apply lookup_insert_eq.
  assert (Hreally : forall r1 r2 r3, exists s3,
    reallyEnforceGqlTypeByPgType o inflection ty r1 r2 r3 s0 = (s3, inr T) /\
    depth s3 = (depth s + 1)%Z).
  { intros r1 r2 r3. unfold reallyEnforceGqlTypeByPgType.
    destruct (String.eqb (id ty) "") eqn:E; [apply String.eqb_eq in E; contradiction |].
    destruct (enum_cached inflection ty s2 T Hset r1 r2 r3 s2 eq_refl) as (_ & Hr & Hdm & Hc).
    destruct (finish_cached ty s2 T Hset s2 eq_refl) as (s3 & Hf & _ & D3).
    rewrite (bind_run _ _ _ _ _ H1), (bind_run _ _ _ _ _ He), (bind_run _ _ _ _ _ Hr),
      (bind_run _ _ _ _ _ Hdm), (bind_run _ _ _ _ _ Hc).
    exists s3. split; [exact Hf |]. rewrite D3. cbn. exact D1. }
  destruct ty as [tid tname tns tdesc ttype tcat tvars rid rst did dbt aid ait arr].
  cbn [enforceGqlTypeByPgType]. unfold enforceGuarded. fold s0.
  replace (50 <? depth s0)%Z with false by (symmetry; apply Z.ltb_ge; cbn; lia).
  edestruct Hreally as (s3 & Hr & _). rewrite Hr.
  eexists _, _. reflexivity.
Qed.

(** Witness of C2: the enum [mood] from a fresh build state. *)
Lemma enum_collisions_merge_last_wins_witness :
  enumValues testInflection [">"; "GREATER_THAN"; "ok"] !! "GREATER_THAN" = Some "GREATER_THAN" /\
  exists s' l, enforceGqlTypeByPgType testOptions testInflection moodT startState
               = (s', inr (GEnum l "mood" None
                                 (enumValues testInflection [">"; "GREATER_THAN"; "ok"]))).
Proof.
  split.
  - rewrite (proj1 enum_collisions_merge_last_wins). reflexivity.
  - exact (proj2 enum_collisions_merge_last_wins testOptions testInflection moodT startState
             [">"; "GREATER_THAN"; "ok"] ltac:(discriminate) eq_refl eq_refl eq_refl eq_refl
             ltac:(vm_compute; discriminate)).
Defined.

(** ** C7: domains *)

Lemma is_unset_unset tid s : gqlTypeByTypeId s !! tid = None -> is_unset tid s = (s, inr true).
Proof. intros H. unfold is_unset. rewrite H. reflexivity. Qed.

Lemma domainStep_run inflection ty r2 bid s s4 :
  gqlTypeByTypeId s !! id ty = None -> type ty = "d" -> domainBaseTypeId ty = Some bid ->
  bid <> "" ->
  domainStep inflection ty r2 s = (s4, inr tt) ->
  exists sb baseOut, r2 s = (sb, inr baseOut) /\
    let l := nextLoc sb in
    let out := GAlias l baseOut (domainType inflection ty) (description ty) in
    let sbx := set_gqlType (<[id ty := out]>) (set_nextLoc (Pos.succ l) sb) in
    s4 = match gqlInputTypeByTypeId sb !! bid with
         | Some bi =>
             if negb (js_same bi baseOut) then
               set_gqlInputType (<[id ty := GAlias (Pos.succ l) bi
                                      (inputType inflection (domainType inflection ty))
                                      (description ty)]>)
                 (set_nextLoc (Pos.succ (Pos.succ l)) sbx)
             else sbx
         | None => sbx
         end.
Proof.
  intros Hs Hty Hbid Hne H. unfold domainStep in H.
  rewrite (bind_run _ _ _ _ _ (is_unset_unset _ _ Hs)) in H.
  rewrite Hty, Hbid in H. cbn [truthy_id] in H.
  apply String.eqb_neq in Hne. rewrite Hne in H. cbn in H.
  apply bind_inr in H as (sb & baseOut & Hb & H).
  exists sb, baseOut. split; [exact Hb |].
  cbv [bind get alloc modify ret] in H. cbn -[js_same] in H. cbv zeta.
  destruct (gqlInputTypeByTypeId sb !! bid) as [bi |];
    [destruct (negb (js_same bi baseOut)) |]; injection H as <-; reflexivity.
Qed.

Lemma Frame_bind {A B} js (m : M A) (k : A -> M B) :
  Frame js m -> (forall a, Frame js (k a)) -> Frame js (bind m k).
Proof.
  intros Hm Hk s s' b H j Hj. apply bind_inr in H as (s1 & a & H1 & H2).
  destruct (Hm _ _ _ H1 j Hj) as [E1 E2]. destruct (Hk a _ _ _ H2 j Hj) as [E3 E4].
  split; congruence.
Qed.

Lemma Frame_weaken {A} js js' (m : M A) : Frame js m -> incl js js' -> Frame js' m.
Proof. intros H Hi s s' a Hm j Hj. apply (H s s' a Hm j). intros Hin. exact (Hj (Hi j Hin)). Qed.

Lemma Frame_pure {A} js (m : M A) :
  (forall s s' a, m s = (s', inr a) ->
     gqlTypeByTypeId s' = gqlTypeByTypeId s /\ gqlInputTypeByTypeId s' = gqlInputTypeByTypeId s) ->
  Frame js m.
Proof. intros H s s' a Hm j _. destruct (H s s' a Hm) as [-> ->]. split; reflexivity. Qed.

Lemma Frame_modify js f :
  (forall s j, ~ In j js ->
     gqlTypeByTypeId (f s) !! j = gqlTypeByTypeId s !! j /\
     gqlInputTypeByTypeId (f s) !! j = gqlInputTypeByTypeId s !! j) ->
  Frame js (modify f).
Proof. intros Hf s s' a H j Hj. injection H as <- _. apply Hf, Hj. Qed.

Ltac frame_solve :=
  repeat match goal with
  | |- Frame _ (bind _ _) => apply Frame_bind; [ | intro ]
  | |- Frame _ (modify _) =>
      apply Frame_modify; intros ?s ?j ?Hj;
      repeat case_match; cbn;
      rewrite ?lookup_insert_ne, ?lookup_delete_ne by (intros Heq; subst; contradiction);
      split; reflexivity
  | |- Frame _ (addType _) => apply Frame_pure; intros ? ? ? H; injection H as <- _; split; reflexivity
  | |- Frame _ (if ?b then _ else _) => destruct b
  | |- Frame _ (match ?x with _ => _ end) => destruct x
  | |- Frame _ _ => apply Frame_pure; intros ? ? ? H;
                    first [ discriminate H | injection H as <- _; split; reflexivity ]
  end.

Lemma Frame_really o inflection ty r1 r2 r3 js :
  In (id ty) js -> Frame js r1 -> Frame js r2 -> Frame js r3 ->
  Frame js (reallyEnforceGqlTypeByPgType o inflection ty r1 r2 r3).
Proof.
  intros Hin H1 H2 H3. unfold reallyEnforceGqlTypeByPgType, overridesStep, enumStep, rangeStep,
    rangeBranch, domainStep, categoryStep, finishStep.
  frame_solve; assumption.
Qed.

Lemma Frame_guarded js ty (really : M GqlType) : Frame js really -> Frame js (enforceGuarded ty really).
Proof.
  intros Hr s s' a H j Hj. unfold enforceGuarded in H. cbv zeta in H.
  destruct (50 <? depth (set_depth (depth s + 1) s))%Z; [discriminate H |].
  destruct (really (set_depth (depth s + 1) s)) as [s2 [e | t]] eqn:E; [discriminate H |].
  injection H as <- _. exact (Hr _ _ _ E j Hj).
Qed.

Lemma Frame_undefined js : Frame js enforceUndefined.
Proof. intros s s' a H. exfalso. exact (undefined_never_returns s s' a H). Qed.

Lemma Frame_enforce o inflection : forall ty, Frame (typeIds ty) (enforceGqlTypeByPgType o inflection ty).
Proof.
  fix IH 1. intros [tid tname tns tdesc ttype tcat tvars rid rst did dbt aid ait arr].
  cbn [enforceGqlTypeByPgType typeIds]. apply Frame_guarded, Frame_really; [left; reflexivity | | |].
  - destruct rst as [t |]; [| apply Frame_undefined].
    apply (Frame_weaken _ _ _ (IH t)). intros x Hx. right. apply in_or_app. left. exact Hx.
  - destruct dbt as [t |]; [| apply Frame_undefined].
    apply (Frame_weaken _ _ _ (IH t)). intros x Hx. right. apply in_or_app. right.
    apply in_or_app. left. exact Hx.
  - destruct ait as [t |]; [| apply Frame_undefined].
    apply (Frame_weaken _ _ _ (IH t)). intros x Hx. right. apply in_or_app. right.
    apply in_or_app. right. exact Hx.
Qed.

Lemma finish_run tid s1 t s2 r :
  gqlTypeByTypeId s1 !! tid = Some t -> finishStep tid s1 = (s2, inr r) ->
  r = t /\ gqlTypeByTypeId s2 = gqlTypeByTypeId s1 /\
  gqlInputTypeByTypeId s2 = match gqlInputTypeByTypeId s1 !! tid with
                            | None => if isInputType t then <[tid := t]> (gqlInputTypeByTypeId s1)
                                      else gqlInputTypeByTypeId s1
                            | Some _ => gqlInputTypeByTypeId s1
                            end.
Proof.
  intros Hset H. unfold finishStep, bind, get, ret, modify, addType in H. rewrite Hset in H.
  cbn in H. destruct (gqlInputTypeByTypeId s1 !! tid); [| destruct (isInputType t)];
    injection H as <- <-; repeat split.
Qed.

Lemma enforce_eq o inflection ty :
  enforceGqlTypeByPgType o inflection ty =
  enforceGuarded ty (reallyEnforceGqlTypeByPgType o inflection ty
    (match rangeSubType ty with Some t => enforceGqlTypeByPgType o inflection t | None => enforceUndefined end)
    (match domainBaseType ty with Some t => enforceGqlTypeByPgType o inflection t | None => enforceUndefined end)
    (match arrayItemType ty with Some t => enforceGqlTypeByPgType o inflection t | None => enforceUndefined end)).
Proof. destruct ty. reflexivity. Qed.

Lemma typeIds_head ty : In (id ty) (typeIds ty).
Proof. destruct ty. left. reflexivity. Qed.

(** C7 (counterexample): the domain [my_interval] over [interval] (whose
    input type [IntervalInput] is not its output type [Interval]) gets an
    input alias named [inputType(domainType(...))] = ["my_intervalInput"],
    not the domain's own name ["my_interval"], which names the output alias. *)
Lemma domain_input_name_counterexample :
  exists s' l l',
    enforceGqlTypeByPgType testOptions testInflection myDomainT startState
    = (s', inr (GAlias l GQLInterval "my_interval" (Some "A domain over interval"))) /\
    gqlInputTypeByTypeId s' !! "90002"
    = Some (GAlias l' GQLIntervalInput "my_intervalInput" (Some "A domain over interval")) /\
    "my_intervalInput" <> "my_interval".
Proof.
  destruct (enforceGqlTypeByPgType testOptions testInflection myDomainT startState)
    as [s' r] eqn:E.
  pose proof E as E'. vm_compute in E'. injection E' as Es <-.
  exists s', 1%positive, 2%positive. split; [reflexivity |]. split; [| discriminate].
  rewrite <- Es. reflexivity.
Qed.

(** C7 (amended): for a domain over a resolved base type (not in the
    registry yet, with no fixed override, and not occurring in its base
    type's descriptor tree), a successful resolution returns an alias of the
    base output type that carries the domain's [domainType] name and its
    description; an input entry different from that alias exists for the
    domain exactly when the base type's input type exists and is not the
    base output type, and it is then an alias of the base input type named
    [inputType] of the domain's [domainType] name, with the domain's
    description. *)
Theorem domain_input_alias :
  forall o inflection ty base s s' out,
    type ty = "d" -> domainBaseType ty = Some base -> domainBaseTypeId ty = Some (id base) ->
    id base <> "" -> ~ In (id ty) (typeIds base) ->
    gqlTypeByTypeId s !! id ty = None -> gqlInputTypeByTypeId s !! id ty = None ->
    oidLookup o (id ty) = None -> oidInputLookup (id ty) = None ->
    enforceGqlTypeByPgType o inflection ty s = (s', inr out) ->
    exists baseOut l,
      gqlTypeByTypeId s' !! id base = Some baseOut /\
      out = GAlias l baseOut (domainType inflection ty) (description ty) /\
      ((exists x, gqlInputTypeByTypeId s' !! id ty = Some x /\ js_same x out = false) <->
       (exists bi, gqlInputTypeByTypeId s' !! id base = Some bi /\ js_same bi baseOut = false)) /\
      (forall bi, gqlInputTypeByTypeId s' !! id base = Some bi -> js_same bi baseOut = false ->
         exists l', gqlInputTypeByTypeId s' !! id ty
                    = Some (GAlias l' bi (inputType inflection (domainType inflection ty))
                                   (description ty))).
Proof.
  intros o inflection ty base s s' out Hty Hdbt Hdid Hbid Hnotin Hs Hsi Ho Hoi H.
  destruct (enforce_success _ _ _ _ _ _ H) as (_ & _ & Hid & _).
  assert (Hne : id ty <> id base).
  { intros E. apply Hnotin. rewrite E. apply typeIds_head. }
  rewrite enforce_eq, Hdbt in H. unfold enforceGuarded in H. cbv zeta in H.
  set (tid := id ty) in *.
  set (s0 := set_depth (depth s + 1) s) in H.
  assert (Hs0 : gqlTypeByTypeId s0 !! tid = None) by exact Hs.
  assert (Hsi0 : gqlInputTypeByTypeId s0 !! tid = None) by exact Hsi.
  destruct (50 <? depth s0)%Z; [discriminate H |].
  destruct (reallyEnforceGqlTypeByPgType _ _ _ _ _ _ s0) as [s2 [e | t]] eqn:Hr;
    [discriminate H |].
  injection H as <- <-.
  unfold reallyEnforceGqlTypeByPgType in Hr. fold tid in Hr.
  rewrite (proj2 (String.eqb_neq _ _) Hid) in Hr.
  apply bind_inr in Hr as (a1 & [] & H1 & Hr).
  unfold overridesStep, bind, modify in H1. rewrite Hs0, Ho, Hsi0, Hoi in H1.
  injection H1 as <-.
  apply bind_inr in Hr as (a2 & [] & H2 & Hr).
  unfold enumStep, bind, is_unset, ret in H2. fold tid in H2. rewrite Hs0, Hty in H2.
  injection H2 as <-.
  apply bind_inr in Hr as (a3 & [] & H3 & Hr).
  unfold rangeStep, bind, is_unset, ret in H3. fold tid in H3. rewrite Hs0, Hty in H3.
  injection H3 as <-.
  apply bind_inr in Hr as (a4 & [] & H4 & Hr).
  destruct (domainStep_run inflection ty _ (id base) s0 a4 Hs0 Hty Hdid Hbid H4)
    as (sb & baseOut & Hb & Ha4).
  cbv zeta in Ha4.
  destruct (enforce_success _ _ _ _ _ _ Hb) as (_ & Hbset & _ & _).
  destruct (Frame_enforce o inflection base _ _ _ Hb tid Hnotin) as [_ Hsbi].
  rewrite Hsi0 in Hsbi.
  set (outA := GAlias (nextLoc sb) baseOut (domainType inflection ty) (description ty)) in *.
  assert (Ha4set : gqlTypeByTypeId a4 !! tid = Some outA).
  { rewrite Ha4. destruct (gqlInputTypeByTypeId sb !! id base);
      [destruct (negb (js_same g baseOut)) |]; apply lookup_insert_eq. }
  apply bind_inr in Hr as (a5 & [] & H5 & Hr).
  destruct (enum_cached inflection ty a4 outA Ha4set enforceUndefined enforceUndefined
              (match arrayItemType ty with
               | Some t => enforceGqlTypeByPgType o inflection t
               | None => enforceUndefined end) a4 eq_refl) as (_ & _ & _ & Hc).
  rewrite Hc in H5. injection H5 as <-.
  destruct (finish_run tid a4 outA s2 t Ha4set Hr) as (-> & Eg & Ei).
  exists baseOut, (nextLoc sb).
  cbn [gqlTypeByTypeId gqlInputTypeByTypeId set_depth]. rewrite Eg, Ei.
  clear Ei Eg Hr Hc Ha4set. subst a4.
  destruct (gqlInputTypeByTypeId sb !! id base) as [bi |] eqn:Ebi;
    [destruct (js_same bi baseOut) eqn:Ej |]; cbn; unfold tid in *.
  - (* the base input type is the base output type: no input alias *)
    rewrite Hsbi. split; [rewrite (lookup_insert_ne _ (id ty) (id base) _ Hne); exact Hbset |].
    split; [reflexivity |].
    assert (Hb' : (if isInputType baseOut then <[id ty:=outA]> (gqlInputTypeByTypeId sb)
                   else gqlInputTypeByTypeId sb) !! id base = Some bi).
    { destruct (isInputType baseOut); [rewrite (lookup_insert_ne _ (id ty) (id base) _ Hne) |]; exact Ebi. }
    rewrite Hb'. split; [split |].
    + intros (x & Hx & Hjs). exfalso. destruct (isInputType baseOut).
      * rewrite lookup_insert_eq in Hx. injection Hx as <-. cbn in Hjs.
        rewrite Pos.eqb_refl in Hjs. discriminate Hjs.
      * rewrite Hsbi in Hx. discriminate Hx.
    + intros (bi0 & Hx & Hjs). injection Hx as <-. congruence.
    + intros bi0 Hx Hjs. injection Hx as <-. congruence.
  - (* an input alias over the base input type *)
    rewrite lookup_insert_eq.
    split; [rewrite (lookup_insert_ne _ (id ty) (id base) _ Hne); exact Hbset |].
    split; [reflexivity |].
    rewrite (lookup_insert_ne _ (id ty) (id base) _ Hne). rewrite Ebi. split; [split |].
    + intros _. exists bi. split; [reflexivity | exact Ej].
    + intros _. eexists. split; [apply lookup_insert_eq |].
      unfold outA. cbn. apply Pos.eqb_neq. lia.
    + intros bi0 Hx _. injection Hx as <-. eexists. apply lookup_insert_eq.
  - (* no base input type *)
    rewrite Hsbi. split; [rewrite (lookup_insert_ne _ (id ty) (id base) _ Hne); exact Hbset |].
    split; [reflexivity |].
    assert (Hb' : (if isInputType baseOut then <[id ty:=outA]> (gqlInputTypeByTypeId sb)
                   else gqlInputTypeByTypeId sb) !! id base = None).
    { destruct (isInputType baseOut); [rewrite (lookup_insert_ne _ (id ty) (id base) _ Hne) |]; exact Ebi. }
    rewrite Hb'. split; [split |].
    + intros (x & Hx & Hjs). exfalso. destruct (isInputType baseOut).
      * rewrite lookup_insert_eq in Hx. injection Hx as <-. cbn in Hjs.
        rewrite Pos.eqb_refl in Hjs. discriminate Hjs.
      * rewrite Hsbi in Hx. discriminate Hx.
    + intros (bi0 & Hx & _). discriminate Hx.
    + intros bi0 Hx. discriminate Hx.
Qed.

(** Witness of C7: the domain [my_interval] over [interval] from a fresh
    build state. *)
Lemma domain_input_alias_witness :
  exists s' out,
    enforceGqlTypeByPgType testOptions testInflection myDomainT startState = (s', inr out) /\
    exists baseOut l,
      gqlTypeByTypeId s' !! id intervalT = Some baseOut /\
      out = GAlias l baseOut (domainType testInflection myDomainT) (description myDomainT) /\
      ((exists x, gqlInputTypeByTypeId s' !! id myDomainT = Some x /\ js_same x out = false) <->
       (exists bi, gqlInputTypeByTypeId s' !! id intervalT = Some bi /\ js_same bi baseOut = false)) /\
      (forall bi, gqlInputTypeByTypeId s' !! id intervalT = Some bi -> js_same bi baseOut = false ->
         exists l', gqlInputTypeByTypeId s' !! id myDomainT
                    = Some (GAlias l' bi (inputType testInflection (domainType testInflection myDomainT))
                                   (description myDomainT))).
Proof.
  destruct (enforceGqlTypeByPgType testOptions testInflection myDomainT startState)
    as [s' [e | out]] eqn:E; [vm_compute in E; discriminate E |].
  exists s', out. split; [reflexivity |].
  exact (domain_input_alias testOptions testInflection myDomainT intervalT startState s' out
           eq_refl eq_refl eq_refl ltac:(discriminate) ltac:(cbv; intros [H | H]; [discriminate H | exact H])
           ltac:(vm_compute; reflexivity) ltac:(vm_compute; reflexivity) eq_refl eq_refl E).
Defined.

(** ** C8: node identifiers *)

(** C8 (counterexample): after [setNodeAlias("User", "")] the identifier
    of a [User] row starts with ["User"], not with the alias [""]: the empty
    alias is falsy and [getNodeAlias] falls back to the type's name. *)
Lemma node_id_empty_alias_counterexample :
  getNodeIdForTypeAndIdentifiers intToString (setNodeAlias (mkNodeState ∅ ∅) "User" "") "User"
    [JStr "1"]
  <> specNodeId intToString "" [JStr "1"].
Proof. vm_compute. discriminate. Qed.

(** C8 (amended): the node identifier is the base64 encoding of the JSON
    array of the type's alias followed by the key parts, where the alias is
    the one set by [setNodeAlias] when it is a non-empty string; with no
    alias set, or with the empty alias, the type's own name is used, for
    every type name that is not a member name of [Object.prototype]. *)
Theorem node_id_alias_or_name :
  (forall numberToString ns typeName alias identifiers,
     isObjectPrototypeMember typeName = false -> alias <> "" ->
     getNodeIdForTypeAndIdentifiers numberToString (setNodeAlias ns typeName alias) typeName
       identifiers
     = specNodeId numberToString alias identifiers) /\
  (forall numberToString ns typeName identifiers,
     isObjectPrototypeMember typeName = false -> nodeAliasByTypeName ns !! typeName = None ->
     getNodeIdForTypeAndIdentifiers numberToString ns typeName identifiers
     = specNodeId numberToString typeName identifiers) /\
  (forall numberToString ns typeName identifiers,
     isObjectPrototypeMember typeName = false ->
     getNodeIdForTypeAndIdentifiers numberToString (setNodeAlias ns typeName "") typeName
       identifiers
     = specNodeId numberToString typeName identifiers).
Proof.
  assert (Hproto : forall typeName, isObjectPrototypeMember typeName = false ->
                   String.eqb typeName "__proto__" = false).
  { intros typeName H. apply String.eqb_neq. intros ->. discriminate H. }
  split; [| split].
  - intros numberToString ns typeName alias identifiers Hp Ha.
    unfold getNodeIdForTypeAndIdentifiers, getNodeAlias, setNodeAlias, specNodeId. cbn.
    rewrite (Hproto _ Hp), lookup_insert_eq, (proj2 (String.eqb_neq _ _) Ha). reflexivity.
  - intros numberToString ns typeName identifiers Hp Hn.
    unfold getNodeIdForTypeAndIdentifiers, getNodeAlias, specNodeId.
    rewrite Hn, (Hproto _ Hp), Hp. reflexivity.
  - intros numberToString ns typeName identifiers Hp.
    unfold getNodeIdForTypeAndIdentifiers, getNodeAlias, setNodeAlias, specNodeId. cbn.
    rewrite (Hproto _ Hp), lookup_insert_eq. reflexivity.
Qed.

(** Witness of C8: the type [User] with the alias ["U"], with no alias and
    with the empty alias. *)
Lemma node_id_alias_or_name_witness :
  getNodeIdForTypeAndIdentifiers intToString (setNodeAlias (mkNodeState ∅ ∅) "User" "U") "User"
    [JStr "1"] = specNodeId intToString "U" [JStr "1"] /\
  getNodeIdForTypeAndIdentifiers intToString (mkNodeState ∅ ∅) "User" [JStr "1"]
    = specNodeId intToString "User" [JStr "1"] /\
  getNodeIdForTypeAndIdentifiers intToString (setNodeAlias (mkNodeState ∅ ∅) "User" "") "User"
    [JStr "1"] = specNodeId intToString "User" [JStr "1"].
Proof.
  split; [| split].
  - exact (proj1 node_id_alias_or_name intToString (mkNodeState ∅ ∅) "User" "U" [JStr "1"]
             eq_refl ltac:(discriminate)).
  - exact (proj1 (proj2 node_id_alias_or_name) intToString (mkNodeState ∅ ∅) "User" [JStr "1"]
             eq_refl (lookup_empty _)).
  - exact (proj2 (proj2 node_id_alias_or_name) intToString (mkNodeState ∅ ∅) "User" [JStr "1"]
             eq_refl).
Defined.

(** ** Range texts: [serialize] and [parse] *)

Lemma js_split_nosep c s :
  ~ In c (list_ascii_of_string s) -> js_split c s = [s].
Proof.
  induction s as [| x s IH]; intros H; [reflexivity |]. cbn [js_split]. cbn in H.
  rewrite IH by tauto. destruct (Ascii.eqb x c) eqn:E; [| reflexivity].
  apply Ascii.eqb_eq in E. subst. exfalso. tauto.
Qed.

Lemma js_split_sep c s t :
  ~ In c (list_ascii_of_string s) -> js_split c (s ++ String c t) = s :: js_split c t.
Proof.
  induction s as [| x s IH]; intros H.
  - change (js_split c (String c t) = "" :: js_split c t). cbn [js_split].
    rewrite Ascii.eqb_refl. reflexivity.
  - change (js_split c (String x (s ++ String c t)) = String x s :: js_split c t).
    cbn [js_split]. cbn in H. rewrite IH by tauto. destruct (Ascii.eqb x c) eqn:E; [| reflexivity].
    apply Ascii.eqb_eq in E. subst. exfalso. tauto.
Qed.

Lemma js_split_length c s :
  length (js_split c s) = S (count_occ ascii_dec (list_ascii_of_string s) c).
Proof.
  induction s as [| x s IH]; [reflexivity |]. cbn [js_split list_ascii_of_string count_occ].
  destruct (Ascii.eqb x c) eqn:E.
  - apply Ascii.eqb_eq in E. subst. destruct (ascii_dec c c); [| contradiction].
    cbn. rewrite IH. reflexivity.
  - apply Ascii.eqb_neq in E. destruct (ascii_dec x c); [contradiction |].
    destruct (js_split c s) as [| p ps]; cbn in IH |- *; [discriminate | exact IH].
Qed.

Lemma substring_0_full s : String.substring 0 (String.length s) s = s.
Proof. induction s as [| x s IH]; [reflexivity |]. cbn. rewrite IH. reflexivity. Qed.

Lemma substring_0_app s t : String.substring 0 (String.length s) (s ++ t) = s.
Proof.
  induction s as [| x s IH]; [destruct t; reflexivity |].
  change (String x (String.substring 0 (String.length s) (s ++ t)) = String x s).
  rewrite IH. reflexivity.
Qed.

Lemma get_app_length s c : String.get (String.length s) (s ++ String c EmptyString) = Some c.
Proof. induction s as [| x s IH]; [reflexivity | exact IH]. Qed.

Lemma length_app_str s t : String.length (s ++ t) = String.length s + String.length t.
Proof.
  induction s as [| x s IH]; [reflexivity |].
  change (S (String.length (s ++ t)) = S (String.length s + String.length t)). rewrite IH. reflexivity.
Qed.

Lemma list_ascii_app s t :
  list_ascii_of_string (s ++ t) = (list_ascii_of_string s ++ list_ascii_of_string t)%list.
Proof.
  induction s as [| x s IH]; [reflexivity |].
  change (x :: list_ascii_of_string (s ++ t) = x :: (list_ascii_of_string s ++ list_ascii_of_string t)%list).
  rewrite IH. reflexivity.
Qed.

(** X1: [pgRangeParser.parse] inverts [pgRangeParser.serialize] on every pair
    of optional bounds whose values are non-empty and contain no comma: the
    bounds, their values and their inclusivity are read back unchanged, and
    a missing bound is read back as missing. *)
Theorem range_serialize_parse_roundtrip (start end_ : option RangeBound) :
  (forall b, start = Some b \/ end_ = Some b ->
     value b <> "" /\ ~ In ","%char (list_ascii_of_string (value b))) ->
  pgRangeParser_parse (pgRangeParser_serialize start end_) = inr (start, end_).
Proof.
  intros Hb. unfold pgRangeParser_serialize.
  set (x := match start with
            | Some b => String.substring 0 1 (inclusivity (inclusive b)) ++ value b
            | None => "[" end).
  set (y := match end_ with
            | Some b => value b ++ String.substring 1 1 (inclusivity (inclusive b))
            | None => "]" end).
  assert (Hx : ~ In ","%char (list_ascii_of_string x)).
  { subst x. destruct start as [a |]; [| cbn; intuition discriminate].
    destruct (Hb a (or_introl eq_refl)) as [_ Ha].
    destruct (inclusive a); cbn; intros [H | H]; [discriminate | tauto | discriminate | tauto]. }
  assert (Hy : ~ In ","%char (list_ascii_of_string y)).
  { subst y. destruct end_ as [a |]; [| cbn; intuition discriminate].
    destruct (Hb a (or_intror eq_refl)) as [_ Ha].
    rewrite list_ascii_app. intros H. apply in_app_or in H as [H | H]; [tauto |].
    destruct (inclusive a); cbn in H; intuition discriminate. }
  change (join_strings "," [x; y]) with (x ++ String "," y).
  unfold pgRangeParser_parse. rewrite (js_split_sep _ _ _ Hx), (js_split_nosep _ _ Hy).
  f_equal. f_equal.
  - subst x. destruct start as [a |]; [| reflexivity].
    destruct (Hb a (or_introl eq_refl)) as [Hne _].
    assert (Hl : (1 <? String.length (String.substring 0 1 (inclusivity (inclusive a)) ++ value a))%nat = true).
    { destruct (inclusive a), (value a); cbn; [contradiction | reflexivity | contradiction | reflexivity]. }
    rewrite Hl. destruct a as [inc v]. cbn [inclusive value].
    unfold slice_from_1, char_at.
    destruct inc; [change (String.substring 0 1 (inclusivity true) ++ v) with (String "[" v) |
                   change (String.substring 0 1 (inclusivity false) ++ v) with (String "(" v)];
    cbn [String.length String.substring String.get];
    replace (S (String.length v) - 1) with (String.length v) by lia; rewrite substring_0_full; reflexivity.
  - subst y. destruct end_ as [a |]; [| reflexivity].
    destruct (Hb a (or_intror eq_refl)) as [Hne _].
    assert (Hl : String.length (value a ++ String.substring 1 1 (inclusivity (inclusive a)))
                 = S (String.length (value a))).
    { rewrite length_app_str. destruct (inclusive a); cbn; lia. }
    rewrite Hl. destruct a as [inc v]. cbn [inclusive value] in *.
    replace (1 <? S (String.length v))%nat with true
      by (destruct v; [contradiction | reflexivity]).
    unfold slice_drop_last, char_at. rewrite Hl. cbn [Nat.sub]. rewrite Nat.sub_0_r.
    destruct inc; cbn [inclusivity String.substring];
      rewrite get_app_length, substring_0_app; reflexivity.
Qed.

(** Witness for X1: the bounds [[1] and [10)] survive the round trip. *)
Lemma range_serialize_parse_roundtrip_witness :
  pgRangeParser_parse
    (pgRangeParser_serialize (Some (mkRangeBound true "1")) (Some (mkRangeBound false "10")))
  = inr (Some (mkRangeBound true "1"), Some (mkRangeBound false "10")).
Proof.
  apply range_serialize_parse_roundtrip.
  intros b [H | H]; injection H as <-; cbn; split; (discriminate || intuition discriminate).
Defined.

(** X2: [pgRangeParser.parse] fails, with [Invalid daterange], exactly when
    its input does not contain exactly one comma; otherwise it returns the
    two bounds. *)
Theorem range_parse_needs_one_comma (str : string) :
  (pgRangeParser_parse str = inl (Error "Invalid daterange" None) <->
   count_occ ascii_dec (list_ascii_of_string str) ","%char <> 1) /\
  (count_occ ascii_dec (list_ascii_of_string str) ","%char = 1 ->
   exists r, pgRangeParser_parse str = inr r).
Proof.
  pose proof (js_split_length ","%char str) as Hl. unfold pgRangeParser_parse.
  destruct (js_split "," str) as [| p0 [| p1 [| p2 ps]]]; cbn in Hl.
  - discriminate.
  - split; [split; [intros _; lia | reflexivity] | lia].
  - split; [split; [discriminate | lia] | eauto].
  - split; [split; [intros _; lia | reflexivity] | lia].
Qed.

(** ** Tweaking selected fragments *)

(** X3: outside the test environment [pgTweakFragmentForType] never throws,
    and it returns either the fragment unchanged or the fragment cast to
    text, [(fragment)::text]. *)
Theorem tweak_outside_tests_total (tweaks : gmap string Tweak) (fragment : SqlFrag) :
  forall ty, pgTweakFragmentForType tweaks false fragment ty = inr fragment \/
             pgTweakFragmentForType tweaks false fragment ty = inr (tweakToText fragment).
Proof.
  fix IH 1. intros [tid tname tns tdesc ttype tcat tvars rid rst did dbt aid ait arr].
  cbn [pgTweakFragmentForType].
  destruct (tweaks !! tid) as [[] |]; [left; reflexivity | right; reflexivity |].
  destruct dbt as [base |]; [apply IH |]. destruct arr; left; reflexivity.
Qed.

(** X4: the test environment only adds a failure: whenever
    [pgTweakFragmentForType] returns normally with [NODE_ENV] set to [test],
    it returns what it returns in any other environment; when it throws, it
    throws the fixed array message and the other environments return the
    fragment unchanged. *)
Theorem tweak_test_mode_only_adds_failure (tweaks : gmap string Tweak) (fragment : SqlFrag) :
  forall ty,
    match pgTweakFragmentForType tweaks true fragment ty with
    | inr r => pgTweakFragmentForType tweaks false fragment ty = inr r
    | inl e => e = Error tweakArrayMessage None /\
               pgTweakFragmentForType tweaks false fragment ty = inr fragment
    end.
Proof.
  fix IH 1. intros [tid tname tns tdesc ttype tcat tvars rid rst did dbt aid ait arr].
  cbn [pgTweakFragmentForType].
  destruct (tweaks !! tid) as [t |]; [reflexivity |].
  destruct dbt as [base |]; [apply IH |]. destruct arr; [split |]; reflexivity.
Qed.

Lemma enumStep_skip inflection ty s : type ty <> "e" -> enumStep inflection ty s = (s, inr tt).
Proof.
  intros H. apply String.eqb_neq in H. unfold enumStep, bind, is_unset. cbn.
  rewrite H, andb_false_r. reflexivity.
Qed.

Lemma rangeStep_skip inflection ty r s : type ty <> "r" -> rangeStep inflection ty r s = (s, inr tt).
Proof.
  intros H. apply String.eqb_neq in H. unfold rangeStep, bind, is_unset. cbn.
  rewrite H, andb_false_r. reflexivity.
Qed.

Lemma domainStep_skip inflection ty r s : type ty <> "d" -> domainStep inflection ty r s = (s, inr tt).
Proof.
  intros H. apply String.eqb_neq in H. unfold domainStep, bind, is_unset. cbn.
  rewrite H, andb_false_r. reflexivity.
Qed.

Lemma overrides_tweaks o tid s s1 :
  overridesStep o tid s = (s1, inr tt) -> pgTweaksByTypeId s1 = pgTweaksByTypeId s.
Proof.
  unfold overridesStep, bind, modify. intros H. injection H as <-.
  repeat case_match; reflexivity.
Qed.

Lemma finish_tweaks tid s s' r :
  finishStep tid s = (s', inr r) -> pgTweaksByTypeId s' = pgTweaksByTypeId s.
Proof.
  unfold finishStep, bind, get, ret, modify, addType. cbn.
  destruct (gqlTypeByTypeId s !! tid); cbn; intros H; injection H as <- _;
    repeat case_match; reflexivity.
Qed.

Lemma tweak_found tweaks nodeEnvTest fragment ty t :
  tweaks !! id ty = Some t ->
  pgTweakFragmentForType tweaks nodeEnvTest fragment ty = inr (applyTweak t fragment).
Proof. destruct ty. cbn. intros ->. reflexivity. Qed.

(** X5: resolving a descriptor of category [N] (numeric) that is not yet
    registered, has no fixed GraphQL type for its oid and is not an enum,
    range or domain, returns [BigFloat] and registers the text tweak for it:
    from then on [pgTweakFragmentForType] casts its fragments to text, in
    every environment. *)
Theorem numeric_category_tweaked_to_text o inflection ty s :
  gqlTypeByTypeId s !! id ty = None -> oidLookup o (id ty) = None ->
  type ty <> "e" -> type ty <> "r" -> type ty <> "d" -> category ty = "N" ->
  id ty <> "" -> (depth s + 1 <= 50)%Z ->
  exists s', enforceGqlTypeByPgType o inflection ty s = (s', inr BigFloat) /\
    gqlTypeByTypeId s' !! id ty = Some BigFloat /\
    forall nodeEnvTest fragment,
      pgTweakFragmentForType (pgTweaksByTypeId s') nodeEnvTest fragment ty =
      inr (tweakToText fragment).
Proof.
  intros Hs Ho He Hr Hd Hc Hid Hdepth.
  set (s0 := set_depth (depth s + 1) s).
  assert (Hs0 : gqlTypeByTypeId s0 !! id ty = None) by exact Hs.
  destruct (overrides_unset o (id ty) s0 Hs0 Ho) as (s1 & H1 & E1 & _).
  pose proof (overrides_tweaks _ _ _ _ H1) as T1.
  assert (Hs1 : gqlTypeByTypeId s1 !! id ty = None) by (rewrite E1; exact Hs0).
  set (s2 := set_gqlType (<[id ty := BigFloat]>) (set_tweaks (<[id ty := TweakToText]>) s1)).
  assert (Hcat : forall r3, categoryStep ty r3 s1 = (s2, inr tt)).
  { intros r3. unfold categoryStep. rewrite (bind_run _ _ _ _ _ (is_unset_unset _ _ Hs1)).
    rewrite Hc. reflexivity. }
  assert (Hs2 : gqlTypeByTypeId s2 !! id ty = Some BigFloat) by apply lookup_insert_eq.
  destruct (finishStep (id ty) s2) as [s3 [e | r]] eqn:Hf.
  { exfalso. revert Hf. unfold finishStep, bind, get, ret, modify, addType.
    rewrite Hs2. cbn. repeat case_match; discriminate. }
  destruct (finish_run _ _ _ _ _ Hs2 Hf) as (-> & E3 & _).
  pose proof (finish_tweaks _ _ _ _ Hf) as T3.
  assert (Hreally : forall r1 r2 r3,
    reallyEnforceGqlTypeByPgType o inflection ty r1 r2 r3 s0 = (s3, inr BigFloat)).
  { intros r1 r2 r3. unfold reallyEnforceGqlTypeByPgType.
    destruct (String.eqb (id ty) "") eqn:E; [apply String.eqb_eq in E; contradiction |].
    rewrite (bind_run _ _ _ _ _ H1), (bind_run _ _ _ _ _ (enumStep_skip inflection ty s1 He)),
      (bind_run _ _ _ _ _ (rangeStep_skip inflection ty r1 s1 Hr)),
      (bind_run _ _ _ _ _ (domainStep_skip inflection ty r2 s1 Hd)),
      (bind_run _ _ _ _ _ (Hcat r3)).
    exact Hf. }
  rewrite enforce_eq. unfold enforceGuarded. fold s0.
  replace (50 <? depth s0)%Z with false by (symmetry; apply Z.ltb_ge; cbn; lia).
  rewrite Hreally. eexists. split; [reflexivity |]. cbn [gqlTypeByTypeId pgTweaksByTypeId set_depth].
  split; [rewrite E3; exact Hs2 |].
  intros nodeEnvTest fragment. apply (tweak_found _ _ _ _ TweakToText). rewrite T3. cbn. apply lookup_insert_eq.
Qed.

(** Witness of X5: the [oid] type from a fresh build state. *)
Lemma numeric_category_tweaked_to_text_witness :
  exists s', enforceGqlTypeByPgType testOptions testInflection oidT startState = (s', inr BigFloat) /\
    pgTweakFragmentForType (pgTweaksByTypeId s') true (SqlRaw "oid") oidT =
    inr (tweakToText (SqlRaw "oid")).
Proof.
  destruct (numeric_category_tweaked_to_text testOptions testInflection oidT startState
              ltac:(reflexivity) ltac:(reflexivity) ltac:(discriminate) ltac:(discriminate)
              ltac:(discriminate) ltac:(reflexivity) ltac:(discriminate) ltac:(vm_compute; discriminate))
    as (s' & H1 & _ & H3).
  exists s'. split; [exact H1 | apply H3].
Defined.

(** ** Resolution invariants *)

(** X6: whenever [enforceGqlTypeByPgType] returns normally, the shared depth
    counter is back at the value it had before the call. *)
Theorem resolution_restores_depth o inflection ty s s' r :
  enforceGqlTypeByPgType o inflection ty s = (s', inr r) -> depth s' = depth s.
Proof. apply DP_enforce. Qed.

(** Witness of X6: resolving [int4] from a fresh build state. *)
Lemma resolution_restores_depth_witness :
  exists s' r, enforceGqlTypeByPgType testOptions testInflection int4T startState = (s', inr r) /\
               depth s' = depth startState.
Proof.
  destruct (enforceGqlTypeByPgType testOptions testInflection int4T startState) as [s' [e | r]] eqn:E.
  - exfalso. vm_compute in E. discriminate E.
  - exists s', r. split; [reflexivity | exact (resolution_restores_depth _ _ _ _ _ _ E)].
Defined.

(** X7: a resolution that returns normally changes the registries of output
    and input types only at the id of the descriptor and at the ids of the
    descriptors it refers to (range subtype, domain base type, array item
    type, recursively); every other entry, present or absent, is kept. *)
Theorem resolution_writes_only_own_ids o inflection ty s s' r j :
  enforceGqlTypeByPgType o inflection ty s = (s', inr r) -> ~ In j (typeIds ty) ->
  gqlTypeByTypeId s' !! j = gqlTypeByTypeId s !! j /\
  gqlInputTypeByTypeId s' !! j = gqlInputTypeByTypeId s !! j.
Proof. intros H Hj. exact (Frame_enforce o inflection ty s s' r H j Hj). Qed.

(** Witness of X7: resolving [int4range] leaves the entry of [interval]. *)
Lemma resolution_writes_only_own_ids_witness :
  exists s' r, enforceGqlTypeByPgType testOptions testInflection int4rangeT startState = (s', inr r) /\
    gqlTypeByTypeId s' !! "1186" = gqlTypeByTypeId startState !! "1186".
Proof.
  destruct (enforceGqlTypeByPgType testOptions testInflection int4rangeT startState)
    as [s' [e | r]] eqn:E.
  - exfalso. vm_compute in E. discriminate E.
  - exists s', r. split; [reflexivity |].
    refine (proj1 (resolution_writes_only_own_ids _ _ _ _ _ _ "1186" E _)).
    vm_compute. intuition discriminate.
Defined.

Lemma finish_input tid s s' r :
  finishStep tid s = (s', inr r) -> isInputType r = true ->
  is_Some (gqlInputTypeByTypeId s' !! tid).
Proof.
  intros H Hi. pose proof (finish_inr _ _ _ _ H) as Ht.
  unfold finishStep, bind, get, ret, modify, addType in H.
  destruct (gqlTypeByTypeId s !! tid) as [t |] eqn:E; cbn in H.
  - injection H as <- <-. cbn. destruct (gqlInputTypeByTypeId s !! tid) eqn:Ei; cbn; [rewrite Ei; eauto |].
    rewrite Hi. cbn. rewrite lookup_insert_eq. eauto.
  - injection H as <- <-. cbn. destruct (gqlInputTypeByTypeId s !! tid) eqn:Ei; cbn; [rewrite Ei; eauto |].
    cbn in Hi. rewrite lookup_insert_eq. eauto.
Qed.

Lemma enforce_input o inflection ty s s' r :
  enforceGqlTypeByPgType o inflection ty s = (s', inr r) -> isInputType r = true ->
  is_Some (gqlInputTypeByTypeId s' !! id ty).
Proof.
  intros H Hi.
  destruct ty as [tid tname tns tdesc ttype tcat tvars rid rst did dbt aid ait arr].
  cbn [enforceGqlTypeByPgType] in H. unfold enforceGuarded in H. cbn [depth set_depth] in H.
  destruct (50 <? depth s + 1)%Z eqn:Hg; [discriminate H |].
  destruct (reallyEnforceGqlTypeByPgType _ _ _ _ _ _ _) as [s2 [e | t]] eqn:Hr;
    [discriminate H |].
  injection H as <- <-. unfold reallyEnforceGqlTypeByPgType in Hr. cbn [id] in *.
  destruct (String.eqb tid "") eqn:Hid; [discriminate Hr |].
  do 5 (apply bind_inr in Hr as (? & [] & _ & Hr)).
  exact (finish_input _ _ _ _ Hr Hi).
Qed.

Lemma findType_id types typeId ty : findType types typeId = Some ty -> id ty = typeId.
Proof. unfold findType. intros H. apply find_some in H as [_ H]. apply String.eqb_eq, H. Qed.

(** X8: for a type id with no input-type generator, [getGqlInputTypeByTypeId]
    resolves the descriptor with that id and returns its registered input
    type; when the resolution succeeds with an output type that is a GraphQL
    input type (a scalar, an enum, an input object), the input type is
    present, never [undefined], and the state is the one the resolution left. *)
Theorem input_type_lookup_defined o inflection types typeGen inputGen typeId ty s s' r :
  inputGen typeId = None -> findType types typeId = Some ty ->
  enforceGqlTypeByPgType o inflection ty s = (s', inr r) -> isInputType r = true ->
  exists t, getGqlInputTypeByTypeId o inflection types typeGen inputGen typeId s = (s', inr (Some t)).
Proof.
  intros Hg Hf He Hi. pose proof (findType_id _ _ _ Hf) as Hid.
  destruct (enforce_input _ _ _ _ _ _ He Hi) as [t Ht]. exists t.
  unfold getGqlInputTypeByTypeId, hasInputGen. rewrite Hg, Hf. cbn [negb].
  unfold bind at 1. unfold bind at 1. rewrite He. cbn. rewrite <- Hid, Ht. reflexivity.
Qed.

(** Witness of X8: the [int4] descriptor, with no generators. *)
Lemma input_type_lookup_defined_witness :
  exists s' t, getGqlInputTypeByTypeId testOptions testInflection [int4T] (fun _ => None)
                 (fun _ => None) "23" startState = (s', inr (Some t)).
Proof.
  destruct (enforceGqlTypeByPgType testOptions testInflection int4T startState) as [s' [e | r]] eqn:E.
  - exfalso. vm_compute in E. discriminate E.
  - assert (Hr : isInputType r = true).
    { vm_compute in E. injection E as _ <-. reflexivity. }
    destruct (input_type_lookup_defined testOptions testInflection [int4T] (fun _ => None)
                (fun _ => None) "23" int4T startState s' r eq_refl eq_refl E Hr) as [t Ht].
    exists s', t. exact Ht.
Defined.

(** ** Encoding values for PostgreSQL *)

(** X9: with the interval codec registered, a non-null value none of whose
    six fields [seconds], [minutes], [hours], [days], [months], [years] is
    truthy (including any value that is not an object, such as a number or
    a string) is encoded as the text ["0 seconds"], never as an empty
    interval text. *)
Theorem interval_encode_defaults_to_zero_seconds numberToString mapper fuel val ty :
  js_is_nullish val = false -> mapper !! id ty = Some MInterval ->
  (forall k, In k intervalKeys -> js_truthy (js_get val k) = false) ->
  gql2pg numberToString mapper (S fuel) val ty = inr (SqlValue (JStr "0 seconds")).
Proof.
  intros Hn Hm Hk. cbn [gql2pg]. rewrite Hn, Hm.
  unfold intervalKeys in Hk |- *. cbn [flat_map].
  rewrite !Hk by (cbn; tauto). reflexivity.
Qed.

(** Witness of X9: the number [5] and the object [{seconds: 0}] under the
    interval codec of the initial mapper. *)
Lemma interval_encode_defaults_to_zero_seconds_witness :
  gql2pg intToString (initialMapper testOptions) 1 (JNum (NFin 5)) intervalT
  = inr (SqlValue (JStr "0 seconds")) /\
  gql2pg intToString (initialMapper testOptions) 1 (JObj [("seconds", JNum (NFin 0))]) intervalT
  = inr (SqlValue (JStr "0 seconds")).
Proof.
  split.
  - apply interval_encode_defaults_to_zero_seconds; [reflexivity | reflexivity |].
    intros k _. reflexivity.
  - apply interval_encode_defaults_to_zero_seconds; [reflexivity | reflexivity |].
    intros k Hk. vm_compute in Hk.
    destruct Hk as [<- | [<- | [<- | [<- | [<- | [<- | []]]]]]]; vm_compute; reflexivity.
Defined.

Lemma mapM_res_Forall2 {A B} (f : A -> JsError + B) l rs :
  Forall2 (fun x r => f x = inr r) l rs -> mapM_res f l = inr rs.
Proof. induction 1 as [| x r l rs Hx _ IH]; [reflexivity |]. cbn. rewrite Hx, IH. reflexivity. Qed.

(** X10: for an array descriptor with no codec of its own that is not a
    domain, encoding rejects every non-null value that is not an array with
    the error naming the type, and encodes an array whose items the item type
    encodes to [items] as [array[item1, item2, ...]::namespace.name]. *)
Theorem array_encode_items numberToString mapper fuel ty :
  isPgArray ty = true -> mapper !! id ty = None -> domainBaseType ty = None ->
  (forall val, js_is_nullish val = false -> (forall l, val <> JArr l) ->
     gql2pg numberToString mapper (S fuel) val ty = inl (gql2pgArrayError ty)) /\
  (forall item l items, arrayItemType ty = Some item ->
     Forall2 (fun v r => gql2pg numberToString mapper fuel v item = inr r) l items ->
     gql2pg numberToString mapper (S fuel) (JArr l) ty
     = inr (SqlFragment [SqlRaw "array["; sql_join items ", "; SqlRaw "]::";
                         SqlIdentifier [namespaceName ty]; SqlRaw ".";
                         SqlIdentifier [name ty]])).
Proof.
  intros Harr Hm Hdom. split.
  - intros val Hn Hnot. cbn [gql2pg]. rewrite Hn, Hm, Hdom, Harr.
    destruct val; try reflexivity; try discriminate Hn. exfalso. exact (Hnot l eq_refl).
  - intros item l items Hitem Hall. cbn [gql2pg js_is_nullish]. rewrite Hm, Hdom, Harr, Hitem.
    rewrite (mapM_res_Forall2 _ _ _ Hall). reflexivity.
Qed.

(** Witness of X10: the [_int4] descriptor, with no codecs. *)
Lemma array_encode_items_witness :
  gql2pg intToString ∅ 2 (JStr "1") int4ArrT = inl (gql2pgArrayError int4ArrT) /\
  gql2pg intToString ∅ 2 (JArr [JNum (NFin 7); JNull]) int4ArrT
  = inr (SqlFragment [SqlRaw "array["; sql_join [SqlValue (JNum (NFin 7)); SqlNull] ", ";
                      SqlRaw "]::"; SqlIdentifier ["pg_catalog"]; SqlRaw ".";
                      SqlIdentifier ["_int4"]]).
Proof.
  destruct (array_encode_items intToString ∅ 1 int4ArrT eq_refl (lookup_empty _) eq_refl)
    as [H1 H2].
  split.
  - apply H1; [reflexivity |]. intros l Hl. discriminate Hl.
  - apply (H2 int4T); [reflexivity |]. repeat constructor.
Defined.

(** X11: a chain of domains with no codecs, ending in a type that is neither
    a domain nor an array and has no codec, is transparent to both codecs:
    given one stack frame per domain level and one more, decoding returns the
    value unchanged and encoding sends it as a plain placeholder
    ([sql.value]), or as [sql.null] for [null] and [undefined]. *)
Theorem plain_domain_chain_passthrough numberToString rawParseInterval getTypeParser mapper :
  forall ty fuel val,
    plainDomainChain mapper ty = true -> (domainDepth ty < fuel)%nat ->
    pg2gql numberToString rawParseInterval getTypeParser mapper fuel val ty = inr val /\
    gql2pg numberToString mapper fuel val ty
    = inr (if js_is_nullish val then SqlNull else SqlValue val).
Proof.
  fix IH 1. intros [tid tname tns tdesc ttype tcat tvars rid rst did dbt aid ait arr] fuel val.
  cbn [plainDomainChain domainDepth]. intros Hp Hf.
  destruct fuel as [| fuel]; [lia |].
  cbn [pg2gql gql2pg id domainBaseType isPgArray].
  destruct (js_is_nullish val) eqn:Hn; [split; reflexivity |].
  destruct (mapper !! tid); [discriminate Hp |].
  destruct dbt as [base |].
  - destruct (IH base fuel val Hp ltac:(lia)) as [H1 H2]. rewrite Hn in H2. split; assumption.
  - destruct arr; [discriminate Hp |]. split; reflexivity.
Qed.

(** Witness of X11: three domains over [int4], with no codecs. *)
Lemma plain_domain_chain_passthrough_witness :
  pg2gql intToString (fun v => v) int4TypeParser ∅ 4 (JStr "42") (domainChain 3) = inr (JStr "42") /\
  gql2pg intToString ∅ 4 (JStr "42") (domainChain 3) = inr (SqlValue (JStr "42")).
Proof.
  apply (plain_domain_chain_passthrough intToString (fun v => v) int4TypeParser
           (∅ : gmap string MapperEntry) (domainChain 3) 4 (JStr "42"));
    vm_compute; [reflexivity | lia].
Defined.

(** X12: decoding a range text and encoding the decoded object again keeps
    the inclusivity the parser found: whenever both succeed, the encoded
    fragment is the range constructor [namespace.name(lower, upper, 'XY')]
    where [X] is ["("] exactly for an exclusive lower bound and [Y] is [")"]
    exactly for an exclusive upper bound (a missing bound gives ["["] or
    ["]"]), and a missing bound is encoded as [sql.null]. *)
Theorem range_decode_encode_inclusivity numberToString rawParseInterval getTypeParser mapper
    fuel str rangeT st decoded frag :
  mapper !! id rangeT = Some (MRange (Some st) rangeT) ->
  pg2gql numberToString rawParseInterval getTypeParser mapper (S fuel) (JStr str) rangeT
  = inr decoded ->
  gql2pg numberToString mapper (S fuel) decoded rangeT = inr frag ->
  exists start end_ lower upper,
    pgRangeParser_parse str = inr (start, end_) /\
    frag = SqlFragment [SqlIdentifier [namespaceName rangeT; name rangeT]; SqlRaw "(";
                        lower; SqlRaw ", "; upper; SqlRaw ", ";
                        SqlLiteral ((match start with
                                     | Some b => if inclusive b then "[" else "("
                                     | None => "[" end) ++
                                    (match end_ with
                                     | Some b => if inclusive b then "]" else ")"
                                     | None => "]" end)); SqlRaw ")"] /\
    (start = None -> lower = SqlNull) /\ (end_ = None -> upper = SqlNull).
Proof.
  intros Hm H1 H2. cbn [pg2gql js_is_nullish] in H1. rewrite Hm in H1.
  destruct (pgRangeParser_parse str) as [e | [start end_]] eqn:Hp; [discriminate H1 |].
  exists start, end_.
  destruct start as [b |]; destruct end_ as [b' |];
    repeat match type of H1 with
           | context [pg2gql ?a ?b ?c ?d ?f ?x ?t] =>
               let E := fresh "E" in destruct (pg2gql a b c d f x t) eqn:E; [discriminate H1 |]
           end;
    injection H1 as <-;
    cbn [gql2pg js_is_nullish] in H2; rewrite Hm in H2; cbn in H2;
    repeat match type of H2 with
           | context [match ?x with inl _ => _ | inr _ => _ end] =>
               let E := fresh "E" in destruct x eqn:E; [discriminate H2 |]
           end;
    injection H2 as <-; do 2 eexists; (split; [reflexivity |]);
    (split; [| split; intros Hx; first [discriminate Hx | reflexivity]]);
    try (destruct (inclusive b)); try (destruct (inclusive b')); reflexivity.
Qed.

(** Witness of X12: the [int4range] codec on ["[1,5)"]. *)
Lemma range_decode_encode_inclusivity_witness :
  exists decoded frag lower upper,
    pg2gql intToString (fun v => v) int4TypeParser
           (<["3904" := MRange (Some int4T) int4rangeT]> ∅) 2 (JStr "[1,5)") int4rangeT
    = inr decoded /\
    gql2pg intToString (<["3904" := MRange (Some int4T) int4rangeT]> ∅) 2 decoded int4rangeT
    = inr frag /\
    frag = SqlFragment [SqlIdentifier ["pg_catalog"; "int4range"]; SqlRaw "("; lower;
                        SqlRaw ", "; upper; SqlRaw ", "; SqlLiteral "[)"; SqlRaw ")"].
Proof.
  destruct (pg2gql intToString (fun v => v) int4TypeParser
              (<["3904" := MRange (Some int4T) int4rangeT]> ∅) 2 (JStr "[1,5)") int4rangeT)
    as [e | decoded] eqn:E1; [vm_compute in E1; discriminate E1 |].
  destruct (gql2pg intToString (<["3904" := MRange (Some int4T) int4rangeT]> ∅) 2 decoded int4rangeT)
    as [e | frag] eqn:E2.
  { exfalso. vm_compute in E1. injection E1 as <-. vm_compute in E2. discriminate E2. }
  destruct (range_decode_encode_inclusivity intToString (fun v => v) int4TypeParser
              (<["3904" := MRange (Some int4T) int4rangeT]> ∅) 1 "[1,5)" int4rangeT int4T
              decoded frag (lookup_insert_eq (∅ : gmap string MapperEntry) "3904" _) E1 E2)
    as (start & end_ & lower & upper & Hp & Hf & _).
  vm_compute in Hp. injection Hp as <- <-.
  exists decoded, frag, lower, upper. split; [reflexivity |]. split; [exact E2 |].
  exact Hf.
Defined.

(** ** Node aliases and fetchers *)

(** X13: after [setNodeAlias(typeName, alias)] with a non-empty type name
    and alias (neither being [__proto__], whose assignment the engine
    ignores), [getNodeAlias(typeName)] returns the alias and
    [getNodeType(alias)] looks up the type by its name [typeName]: the two
    maps invert each other. *)
Theorem node_alias_type_roundtrip ns typeName alias s :
  typeName <> "__proto__" -> alias <> "__proto__" -> typeName <> "" -> alias <> "" ->
  getNodeAlias (setNodeAlias ns typeName alias) typeName = JStr alias /\
  getNodeType (setNodeAlias ns typeName alias) alias s = getTypeByName typeName s.
Proof.
  intros Ht Ha Hte Hae. apply String.eqb_neq in Ht, Ha, Hte, Hae.
  unfold getNodeAlias, getNodeType, getNodeTypeKey, setNodeAlias. cbn.
  rewrite Ht, Ha, !lookup_insert_eq, Hte, Hae. split; reflexivity.
Qed.

(** Witness of X13: the alias ["U"] of the type ["User"]. *)
Lemma node_alias_type_roundtrip_witness :
  getNodeAlias (setNodeAlias (mkNodeState ∅ ∅) "User" "U") "User" = JStr "U" /\
  getNodeType (setNodeAlias (mkNodeState ∅ ∅) "User" "U") "U" startState
  = getTypeByName "User" startState.
Proof.
  apply node_alias_type_roundtrip; vm_compute; discriminate.
Defined.

(** X14: registering a node fetcher is write-once: a successful
    [addNodeFetcherForTypeName(typeName, fetcher)] stores the fetcher under
    the type name and changes no other entry, and every later registration
    for the same name fails with "There's already a fetcher for this type"
    and leaves the table unchanged. Registration fails with "No fetcher
    specified" when the fetcher is falsy. *)
Theorem node_fetcher_write_once {G} (truthy : G -> bool) fetchers typeName fetcher fetchers' :
  addNodeFetcherForTypeName truthy fetchers typeName fetcher = inr fetchers' ->
  truthy fetcher = true /\
  fetchers' !! typeName = Some fetcher /\
  (forall k, k <> typeName -> fetchers' !! k = fetchers !! k) /\
  (forall other, addNodeFetcherForTypeName truthy fetchers' typeName other
                 = inl (Error "There's already a fetcher for this type" None)).
Proof.
  unfold addNodeFetcherForTypeName. intros H.
  destruct (registered truthy fetchers typeName); [discriminate H |].
  destruct (truthy fetcher) eqn:Ef; [| discriminate H]. injection H as <-.
  split; [reflexivity |]. split; [apply lookup_insert_eq |]. split.
  - intros k Hk. apply lookup_insert_ne. congruence.
  - intros other. unfold registered. rewrite lookup_insert_eq, Ef. reflexivity.
Qed.

(** Witness of X14: fetchers as numbers, [0] being falsy. *)
Lemma node_fetcher_write_once_witness :
  exists fetchers',
    addNodeFetcherForTypeName (fun n : nat => negb (n =? 0)%nat) ∅ "User" 7 = inr fetchers' /\
    addNodeFetcherForTypeName (fun n : nat => negb (n =? 0)%nat) fetchers' "User" 8
    = inl (Error "There's already a fetcher for this type" None).
Proof.
  destruct (addNodeFetcherForTypeName (fun n : nat => negb (n =? 0)%nat) ∅ "User" 7)
    as [e | fetchers'] eqn:E; [vm_compute in E; discriminate E |].
  exists fetchers'. split; [reflexivity |].
  exact (proj2 (proj2 (proj2 (node_fetcher_write_once _ _ _ _ _ E))) 8).
Defined.

(** X15: a node fetcher can never be registered under a type name that is a
    member of [Object.prototype] ([constructor], [toString], [__proto__],
    ...) and has no own entry: the inherited member is truthy, so the call
    fails with "There's already a fetcher for this type", even on an empty
    table and with a valid fetcher. *)
Theorem node_fetcher_rejects_prototype_names {G} (truthy : G -> bool) fetchers typeName fetcher :
  isObjectPrototypeMember typeName = true -> fetchers !! typeName = None ->
  addNodeFetcherForTypeName truthy fetchers typeName fetcher
  = inl (Error "There's already a fetcher for this type" None).
Proof.
  intros Hp Hn. unfold addNodeFetcherForTypeName, registered. rewrite Hn, Hp. reflexivity.
Qed.

(** Witness of X15: the type name [constructor]. *)
Lemma node_fetcher_rejects_prototype_names_witness :
  addNodeFetcherForTypeName (fun n : nat => negb (n =? 0)%nat) ∅ "constructor" 7
  = inl (Error "There's already a fetcher for this type" None).
Proof.
  apply node_fetcher_rejects_prototype_names; reflexivity.
Defined.

(** ** Type generator registries *)

(** X16: registering a truthy type generator or input type generator for an
    id is write-once: afterwards the generator is stored for the id, a
    second registration for the id fails with "There's already a (input)
    type generator registered for '<id>'", and with [yieldToExisting] it
    returns without replacing the stored generator. *)
Theorem generator_registration_write_once {G} (truthy : G -> bool) typeId gen other :
  truthy gen = true ->
  (forall gens gens', registerGqlTypeByTypeId truthy gens typeId gen false = inr gens' ->
     gens' !! typeId = Some gen /\
     registerGqlTypeByTypeId truthy gens' typeId other false
     = inl (Error ("There's already a type generator registered for '" ++ typeId ++ "'") None) /\
     registerGqlTypeByTypeId truthy gens' typeId other true = inr gens') /\
  (forall gens gens', registerGqlInputTypeByTypeId truthy gens typeId gen false = inr gens' ->
     gens' !! typeId = Some gen /\
     registerGqlInputTypeByTypeId truthy gens' typeId other false
     = inl (Error ("There's already an input type generator registered for '" ++ typeId ++ "'")
                  None) /\
     registerGqlInputTypeByTypeId truthy gens' typeId other true = inr gens').
Proof.
  intros Hg. split.
  - intros gens gens' H. unfold registerGqlTypeByTypeId in H |- *.
    destruct (registered truthy gens typeId); [discriminate H |]. injection H as <-.
    assert (Hr : registered truthy (<[typeId := gen]> gens) typeId = true)
      by (unfold registered; rewrite lookup_insert_eq; exact Hg).
    rewrite Hr. split; [apply lookup_insert_eq | split; reflexivity].
  - intros gens gens' H. unfold registerGqlInputTypeByTypeId in H |- *.
    destruct (registered truthy gens typeId); [discriminate H |]. injection H as <-.
    assert (Hr : registered truthy (<[typeId := gen]> gens) typeId = true)
      by (unfold registered; rewrite lookup_insert_eq; exact Hg).
    rewrite Hr. split; [apply lookup_insert_eq | split; reflexivity].
Qed.

(** Witness of X16: generators as numbers, on the id ["600"]. *)
Lemma generator_registration_write_once_witness :
  registerGqlTypeByTypeId (fun n : nat => negb (n =? 0)%nat) (<["600" := 1]> ∅) "600" 2 false
  = inl (Error ("There's already a type generator registered for '" ++ "600" ++ "'") None).
Proof.
  destruct (generator_registration_write_once (fun n : nat => negb (n =? 0)%nat) "600" 1 2
              eq_refl) as [H _].
  exact (proj1 (proj2 (H ∅ (<["600" := 1]> ∅) eq_refl))).
Defined.

(** ** JSON columns *)

(** X17: for the [json] and [jsonb] codecs of the initial codec table,
    decoding a value that has a JSON text and encoding the result again sends
    that JSON text as a placeholder, whether or not [pgExtendedTypes] is set:
    with it the decoder keeps the structured value and the encoder
    serialises it; without it the decoder serialises and the encoder passes
    the text through. *)
Theorem json_decode_encode_independent_of_mode o numberToString rawParseInterval getTypeParser
    fuel val ty text decoded :
  id ty = "114" \/ id ty = "3802" ->
  js_is_nullish val = false -> json_stringify numberToString val = Some text ->
  pg2gql numberToString rawParseInterval getTypeParser (initialMapper o) (S fuel) val ty
  = inr decoded ->
  gql2pg numberToString (initialMapper o) (S fuel) decoded ty = inr (SqlValue (JStr text)).
Proof.
  intros Hid Hn Hj H.
  assert (Hm : initialMapper o !! id ty
               = Some (if pgExtendedTypes o then MJsonStructured else MJsonText)).
  { unfold initialMapper. destruct Hid as [-> | ->]; destruct (pgExtendedTypes o);
      vm_compute; reflexivity. }
  cbn [pg2gql] in H. rewrite Hn, Hm in H.
  destruct (pgExtendedTypes o); injection H as <-; cbn [gql2pg js_is_nullish];
    [rewrite Hn, Hm, Hj | rewrite Hm, Hj]; reflexivity.
Qed.

(** Witness of X17: the array [[true, null]] in a [jsonb] column, without
    [pgExtendedTypes]. *)
Lemma json_decode_encode_independent_of_mode_witness :
  exists decoded,
    pg2gql intToString (fun v => v) int4TypeParser (initialMapper (mkOptions false false)) 1
           (JArr [JBool true; JNull]) (mkPgType "3802" "jsonb" "pg_catalog" None "b" "U" None
                                         None None None None None None false) = inr decoded /\
    gql2pg intToString (initialMapper (mkOptions false false)) 1 decoded
           (mkPgType "3802" "jsonb" "pg_catalog" None "b" "U" None None None None None None None false)
    = inr (SqlValue (JStr "[true,null]")).
Proof.
  eexists. split; [vm_compute; reflexivity |].
  apply (json_decode_encode_independent_of_mode (mkOptions false false) intToString (fun v => v)
           int4TypeParser 0 (JArr [JBool true; JNull])); [right; reflexivity | reflexivity |
                                                          vm_compute; reflexivity |].
  vm_compute. reflexivity.
Defined.

(** ** Errors and arrays during resolution *)

(** X18: every error that escapes a resolution started below the depth
    limit is wrapped by [enforceGqlTypeByPgType]: its message begins with
    "Error occurred when processing database type '<namespace>.<name>'
    (type=<kind>):" followed by the indented message of the inner error,
    which is kept as [originalError]. *)
Theorem resolution_errors_name_the_type o inflection ty s s' e :
  (depth s + 1 <= 50)%Z -> enforceGqlTypeByPgType o inflection ty s = (s', inl e) ->
  exists inner, e = wrapError ty inner /\
    e = Error ("Error occurred when processing database type '" ++ namespaceName ty ++ "."
               ++ name ty ++ "' (type=" ++ type ty ++ "):" ++ String (ascii_of_nat 10) EmptyString
               ++ indent (error_message inner)) (Some inner).
Proof.
  intros Hd H. rewrite enforce_eq in H. unfold enforceGuarded in H. cbn [depth set_depth] in H.
  replace (50 <? depth s + 1)%Z with false in H by (symmetry; apply Z.ltb_ge; lia).
  destruct (reallyEnforceGqlTypeByPgType _ _ _ _ _ _ _) as [s2 [inner | t]];
    [| discriminate H].
  injection H as _ <-. exists inner. split; reflexivity.
Qed.

(** Witness of X18: an array type whose item type is missing. *)
Lemma resolution_errors_name_the_type_witness :
  exists s' e, enforceGqlTypeByPgType testOptions testInflection orphanArrT startState = (s', inl e) /\
    exists inner, e = wrapError orphanArrT inner.
Proof.
  destruct (enforceGqlTypeByPgType testOptions testInflection orphanArrT startState)
    as [s' [e | t]] eqn:E; [| vm_compute in E; discriminate E].
  exists s', e. split; [reflexivity |].
  destruct (resolution_errors_name_the_type testOptions testInflection orphanArrT startState s' e
              ltac:(vm_compute; discriminate) E) as (inner & Hi & _).
  exists inner. exact Hi.
Defined.


